(** * HammerGesturesPlugin: registration protocol of the gesture event plugin

    Shallow embedding of
    [packages/platform-browser/src/dom/events/hammer_gestures.ts].

    The plugin talks to collaborators that are not part of the file: the
    gesture engine ([window.Hammer] and the instances it builds), the
    loader of the engine, the host zone ([runOutsideAngular],
    [runGuarded]), the console and the caller's handler.  Calls to them are
    recorded, in order, in a log carried by the program state, each one
    tagged with the zone it was made in.  Closures are defunctionalised:
    every function value the plugin creates is a constructor of [Fn] (or
    an index into a table of wrapped callbacks), and the variables a
    closure captures live in a store indexed by allocation order, so that
    two closures over the same variables alias.  The promise the loader
    returns settles at a later turn of the event loop; that turn is the
    action [ASettle] of a run. *)

From Stdlib Require Import ZArith Ascii String Lia.
From stdpp Require Import base list strings.

Local Open Scope string_scope.
Local Open Scope list_scope.

(** ** Strings *)

(** [String.prototype.toLowerCase] is a built-in of the language, not a
    part of the plugin, and its case mapping covers all of Unicode.  The
    plugin is modelled over any lowercasing function, of which one law is
    used: lowercasing a lowercased string changes nothing (the targets of
    the case mapping have no lowercase mapping of their own). *)
Class Lowercase : Type := {
  toLowerCase : string -> string;
  toLowerCase_idem : forall s, toLowerCase (toLowerCase s) = toLowerCase s
}.

(** What the built-in does on strings of ASCII characters: the letters
    [A]..[Z] are mapped to [a]..[z] and nothing else changes.  The general
    statements do not depend on it; the concrete runs at the end of the
    file, whose names are all ASCII, are computed with it. *)
Definition lower_ascii (c : ascii) : ascii :=
  let n := N_of_ascii c in
  if ((65 <=? n) && (n <=? 90))%N then ascii_of_N (n + 32) else c.

Fixpoint ascii_toLowerCase (s : string) : string :=
  match s with
  | EmptyString => EmptyString
  | String c s' => String (lower_ascii c) (ascii_toLowerCase s')
  end.

Lemma lower_ascii_idem (c : ascii) : lower_ascii (lower_ascii c) = lower_ascii c.
Proof.
  destruct c as [[] [] [] [] [] [] [] []]; vm_compute; reflexivity.
Qed.

Lemma ascii_toLowerCase_idem (s : string) :
  ascii_toLowerCase (ascii_toLowerCase s) = ascii_toLowerCase s.
Proof.
  induction s as [|c s IH]; simpl; [reflexivity|].
  now rewrite lower_ascii_idem, IH.
Qed.

Definition ascii_names : Lowercase :=
  {| toLowerCase := ascii_toLowerCase; toLowerCase_idem := ascii_toLowerCase_idem |}.

(** The double quote character that the template literals contain. *)
Definition dq : string := String (ascii_of_N 34) EmptyString.

(** ** Plain objects used as maps *)

(** An option bag, such as [{enable: true}]: property names with literal
    values, in enumeration order. *)
Definition Bag : Type := list (string * string).

(** A JS object literal: its own enumerable properties in enumeration
    order. *)
Definition JsObject (V : Type) : Type := list (string * V).

Definition hasOwnProperty {V} (o : JsObject V) (k : string) : bool :=
  existsb (fun kv => String.eqb (fst kv) k) o.

(** [o[k]]; [None] is [undefined]. *)
Fixpoint prop {V} (o : JsObject V) (k : string) : option V :=
  match o with
  | [] => None
  | (k', v) :: o' => if String.eqb k' k then Some v else prop o' k
  end.

(** The keys a [for (const k in o)] loop visits. *)
Definition for_in_keys {V} (o : JsObject V) : list string := map fst o.

(** [Array.prototype.indexOf] on an array of strings: the first index
    holding a string equal to [x], or [-1]. *)
Fixpoint indexOf (l : list string) (x : string) : Z :=
  match l with
  | [] => (-1)%Z
  | y :: l' =>
      if String.eqb y x then 0%Z
      else let i := indexOf l' x in
           if (i <? 0)%Z then (-1)%Z else (i + 1)%Z
  end.

Definition EVENT_NAMES : JsObject bool :=
  [ (* pan *)
    ("pan", true); ("panstart", true); ("panmove", true); ("panend", true);
    ("pancancel", true); ("panleft", true); ("panright", true);
    ("panup", true); ("pandown", true);
    (* pinch *)
    ("pinch", true); ("pinchstart", true); ("pinchmove", true);
    ("pinchend", true); ("pinchcancel", true); ("pinchin", true);
    ("pinchout", true);
    (* press *)
    ("press", true); ("pressup", true);
    (* rotate *)
    ("rotate", true); ("rotatestart", true); ("rotatemove", true);
    ("rotateend", true); ("rotatecancel", true);
    (* swipe *)
    ("swipe", true); ("swipeleft", true); ("swiperight", true);
    ("swipeup", true); ("swipedown", true);
    (* tap *)
    ("tap", true) ].

(** ** Values the plugin handles but never looks into *)

Definition Element : Type := nat.     (* an HTMLElement, by identity *)
Definition Handler : Type := nat.     (* the caller's handler, by identity *)
Definition EventObj : Type := nat.    (* a HammerInput event object *)
Definition LoaderFn : Type := nat.    (* the HAMMER_LOADER function *)
Definition Manager : Type := nat.     (* an engine instance, by identity *)
Definition CallbackRef : Type := nat. (* a wrapped callback, by identity *)
Definition CellRef : Type := nat.     (* the variables of one deferred call *)

(** ** Configuration *)

Record HammerGestureConfig : Type := mkConfig {
  events : list string;
  overrides : JsObject Bag;
  options : option Bag
}.

Record HammerGesturesPlugin : Type := mkPlugin {
  _config : HammerGestureConfig;
  loader : option LoaderFn
}.

(** ** Function values *)

(** The four function expressions that [addEventListener] can hand out or
    store in [deregister]. *)
Inductive Fn : Type :=
  | FCancel (r : CellRef)
      (* [() => { cancelRegistration = true; }], line 140 *)
  | FNoop
      (* [() => {}], lines 148 and 162 *)
  | FDeref (r : CellRef)
      (* [() => { deregister(); }], line 168 *)
  | FOff (mc : Manager) (eventName : string) (callback : CallbackRef).
      (* [() => mc.off(eventName, callback)], line 178 *)

(** ** Collaborators *)

(** The zone a call is made in. *)
Inductive Zone : Type :=
  | Ambient          (* wherever the host called from *)
  | OutsideAngular   (* inside [zone.runOutsideAngular] *)
  | Guarded.         (* inside [zone.runGuarded] *)

(** Calls that leave the plugin. *)
Inductive Call : Type :=
  | Warn (msg : string)                                 (* console.warn *)
  | LoaderCalled (l : LoaderFn)                         (* this.loader() *)
  | HammerNew (mc : Manager) (element : Element) (opts : option Bag)
  | RecognizerSet (mc : Manager) (recognizer : string) (opts : option Bag)
                                                        (* mc.get(..).set(..) *)
  | On (mc : Manager) (eventName : string) (callback : CallbackRef)
  | Off (mc : Manager) (eventName : string) (callback : CallbackRef)
  | HandlerCalled (handler : Handler) (eventObj : EventObj).

Definition Obs : Type := Zone * Call.

(** What is known of the engine once it is installed: whether its
    constructor accepts an element and base options or throws, and which
    recognizers the instance it builds from them has ([mc.get(name)] is
    [null] for any other name).  [set] on a recognizer the instance has,
    [on] and [off] are taken to return. *)
Record HammerLib : Type := mkLib {
  constructs : Element -> option Bag -> bool;
  recognizers : Element -> option Bag -> string -> bool
}.

(** An engine instance, as [new Hammer(..)] returns it: its identity and
    the recognizers it has. *)
Record HammerInstance : Type := mkInstance {
  mc_id : Manager;
  mc_has : string -> bool
}.

(** ** Program state *)

(** Promise state of [this.loader()], as far as the plugin can see it. *)
Inductive PromiseState : Type := Outstanding | Settled.

(** The variables closed over by the functions of lines 139-168. *)
Record Registration : Type := mkReg {
  cancelRegistration : bool;
  deregister : Fn;
  reg_element : Element;
  reg_eventName : string;
  reg_handler : Handler;
  reg_promise : PromiseState
}.

Record World : Type := mkWorld {
  Hammer : option HammerLib;        (* [window.Hammer]; [None] when falsy *)
  zone : Zone;                      (* the zone code currently runs in *)
  log : list Obs;                   (* calls made so far, oldest first *)
  managers : nat;                   (* engine instances built so far *)
  callbacks : list Handler;         (* wrapped callbacks: captured handler *)
  pending : list Registration       (* deferred calls, by allocation order *)
}.

Definition set_Hammer (h : option HammerLib) (w : World) : World :=
  mkWorld h (zone w) (log w) (managers w) (callbacks w) (pending w).
Definition set_zone (z : Zone) (w : World) : World :=
  mkWorld (Hammer w) z (log w) (managers w) (callbacks w) (pending w).
Definition set_log (l : list Obs) (w : World) : World :=
  mkWorld (Hammer w) (zone w) l (managers w) (callbacks w) (pending w).
Definition set_managers (n : nat) (w : World) : World :=
  mkWorld (Hammer w) (zone w) (log w) n (callbacks w) (pending w).
Definition set_callbacks (c : list Handler) (w : World) : World :=
  mkWorld (Hammer w) (zone w) (log w) (managers w) c (pending w).
Definition set_pending (p : list Registration) (w : World) : World :=
  mkWorld (Hammer w) (zone w) (log w) (managers w) (callbacks w) p.

(** ** Computations: state and exceptions *)

Inductive Exn : Type :=
  | HammerNotDefined     (* [new Hammer(..)] while [window.Hammer] is falsy *)
  | EngineThrew          (* the engine's constructor threw *)
  | NoRecognizer         (* [mc.get(..)] was [null], so [.set(..)] threw *)
  | StackExhausted       (* call depth exceeded *)
  | NoSuchClosure.       (* a reference into the store that was never made *)

Inductive Result (A : Type) : Type :=
  | Ok (a : A)
  | Throw (e : Exn).
Arguments Ok {A} a.
Arguments Throw {A} e.

Definition M (A : Type) : Type := World -> Result A * World.

Definition ret {A} (a : A) : M A := fun w => (Ok a, w).
Definition throw {A} (e : Exn) : M A := fun w => (Throw e, w).
Definition bind {A B} (c : M A) (k : A -> M B) : M B :=
  fun w => match c w with
           | (Ok a, w') => k a w'
           | (Throw e, w') => (Throw e, w')
           end.

Declare Scope comp_scope.
Delimit Scope comp_scope with comp.
Bind Scope comp_scope with M.
Notation "x <- c ;; k" := (bind c (fun x => k))
  (at level 100, c at next level, k at level 200, right associativity) : comp_scope.
Notation "c ;; k" := (bind c (fun _ => k))
  (at level 100, k at level 200, right associativity) : comp_scope.
Local Open Scope comp_scope.

(** Record a call to a collaborator, in the current zone. *)
Definition emit (c : Call) : M unit :=
  fun w => (Ok tt, set_log (log w ++ [(zone w, c)]) w).

Definition window_Hammer : M (option HammerLib) :=
  fun w => (Ok (Hammer w), w).

Definition console_warn (msg : string) : M unit := emit (Warn msg).

(** [zone.runOutsideAngular(fn)] and [zone.runGuarded(fn)]: [fn] runs in
    the named zone and the caller's zone is restored afterwards, also when
    [fn] throws. *)
Definition run_in {A} (z : Zone) (fn : M A) : M A :=
  fun w => let '(r, w') := fn (set_zone z w) in (r, set_zone (zone w) w').

Definition runOutsideAngular {A} (fn : M A) : M A := run_in OutsideAngular fn.
Definition runGuarded {A} (fn : M A) : M A := run_in Guarded fn.

(** ** The engine, as the plugin uses it *)

(** The identity of the next engine instance. *)
Definition fresh_manager : M Manager :=
  fun w => (Ok (managers w), set_managers (S (managers w)) w).

(** [new Hammer(element, options)]. *)
Definition new_Hammer (element : Element) (opts : option Bag) : M HammerInstance :=
  H <- window_Hammer ;;
  match H with
  | None => throw HammerNotDefined
  | Some lib =>
      if constructs lib element opts then
        mc <- fresh_manager ;;
        emit (HammerNew mc element opts) ;;
        ret (mkInstance mc (recognizers lib element opts))
      else throw EngineThrew
  end.

(** [mc.get(recognizer).set(opts)]: when the instance has no recognizer
    of that name, [get] returns [null] and the call of [set] throws. *)
Definition recognizer_set (mc : HammerInstance) (recognizer : string)
    (opts : option Bag) : M unit :=
  if mc_has mc recognizer
  then emit (RecognizerSet (mc_id mc) recognizer opts)
  else throw NoRecognizer.

Definition mc_on (mc : Manager) (eventName : string) (cb : CallbackRef) : M unit :=
  emit (On mc eventName cb).
Definition mc_off (mc : Manager) (eventName : string) (cb : CallbackRef) : M unit :=
  emit (Off mc eventName cb).

(** A loop body run once per key, stopping at the first exception. *)
Fixpoint for_each {K} (ks : list K) (body : K -> M unit) : M unit :=
  match ks with
  | [] => ret tt
  | k :: ks' => body k ;; for_each ks' body
  end.

(** ** HammerGestureConfig.buildHammer (lines 91-102) *)

Definition enable_true : Bag := [("enable", "true")].

Definition buildHammer (this : HammerGestureConfig) (element : Element) : M HammerInstance :=
  mc <- new_Hammer element (options this) ;;
  recognizer_set mc "pinch" (Some enable_true) ;;
  recognizer_set mc "rotate" (Some enable_true) ;;
  for_each (for_in_keys (overrides this))
    (fun eventName => recognizer_set mc eventName (prop (overrides this) eventName)) ;;
  ret mc.

(** ** The store of closure variables *)

(** A function expression evaluated: a new wrapped callback capturing
    [handler] (line 174). *)
Definition new_callback (handler : Handler) : M CallbackRef :=
  fun w => (Ok (length (callbacks w)), set_callbacks (callbacks w ++ [handler]) w).

(** Lines 139-140: the variables of a deferred call, [deregister] being
    the function that sets the flag of this very cell. *)
Definition new_registration (element : Element) (eventName : string)
    (handler : Handler) : M CellRef :=
  fun w =>
    let r := length (pending w) in
    (Ok r, set_pending
             (pending w ++ [mkReg false (FCancel r) element eventName handler Outstanding]) w).

Definition set_cancelRegistration (b : bool) (c : Registration) : Registration :=
  mkReg b (deregister c) (reg_element c) (reg_eventName c) (reg_handler c) (reg_promise c).
Definition set_deregister (f : Fn) (c : Registration) : Registration :=
  mkReg (cancelRegistration c) f (reg_element c) (reg_eventName c) (reg_handler c) (reg_promise c).
Definition set_promise (p : PromiseState) (c : Registration) : Registration :=
  mkReg (cancelRegistration c) (deregister c) (reg_element c) (reg_eventName c) (reg_handler c) p.

Definition read_cell (r : CellRef) : M Registration :=
  fun w => match pending w !! r with
           | Some c => (Ok c, w)
           | None => (Throw NoSuchClosure, w)
           end.

Definition update_cell (r : CellRef) (f : Registration -> Registration) : M unit :=
  c <- read_cell r ;;
  fun w => (Ok tt, set_pending (<[r := f c]> (pending w)) w).

(** ** HammerGesturesPlugin *)

Section Names.

Context {names : Lowercase}.

Section Plugin.

Variable this : HammerGesturesPlugin.

(** Line 182. *)
Definition isCustomEvent (eventName : string) : bool :=
  (indexOf (events (_config this)) eventName >? -1)%Z.

Definition not_loaded_message (eventName : string) : string :=
  "The " +:+ dq +:+ eventName +:+ dq +:+ " event cannot be bound because Hammer.JS is not "
  +:+ "loaded and no custom loader has been specified.".

(** Lines 114-127. *)
Definition supports (eventName : string) : M bool :=
  if negb (hasOwnProperty EVENT_NAMES (toLowerCase eventName))
     && negb (isCustomEvent eventName)
  then ret false
  else
    H <- window_Hammer ;;
    if negb (bool_decide (is_Some H)) && negb (bool_decide (is_Some (loader this)))
    then console_warn (not_loaded_message eventName) ;; ret false
    else ret true.

(** Lines 129-180.  The two continuations given to the promise are
    [then_callback] and [catch_callback] below; they run when the promise
    settles, see [settle].  The loader is a collaborator: its call is
    logged and it is taken to return its promise. *)
Definition addEventListener (element : Element) (eventName : string)
    (handler : Handler) : M Fn :=
  let eventName := toLowerCase eventName in
  H <- window_Hammer ;;
  match H, loader this with
  | None, Some load =>
      r <- new_registration element eventName handler ;;
      emit (LoaderCalled load) ;;
      ret (FDeref r)
  | _, _ =>
      runOutsideAngular (
        mc <- buildHammer (_config this) element ;;
        callback <- new_callback handler ;;
        mc_on (mc_id mc) eventName callback ;;
        ret (FOff (mc_id mc) eventName callback))
  end.

Definition loader_absent_message : string :=
  "The custom HAMMER_LOADER completed, but Hammer.JS is not present.".

Definition loader_failed_message (eventName : string) : string :=
  "The " +:+ dq +:+ eventName +:+ dq +:+ " event cannot be bound because the custom "
  +:+ "Hammer.JS loader failed.".

(** Lines 143-157, for the call whose variables are in cell [r]. *)
Definition then_callback (r : CellRef) : M unit :=
  H <- window_Hammer ;;
  match H with
  | None =>
      console_warn loader_absent_message ;;
      update_cell r (set_deregister FNoop)
  | Some _ =>
      c <- read_cell r ;;
      if negb (cancelRegistration c) then
        f <- addEventListener (reg_element c) (reg_eventName c) (reg_handler c) ;;
        update_cell r (set_deregister f)
      else ret tt
  end.

(** Lines 158-163. *)
Definition catch_callback (r : CellRef) : M unit :=
  c <- read_cell r ;;
  console_warn (loader_failed_message (reg_eventName c)) ;;
  update_cell r (set_deregister FNoop).

(** How the loader's promise settles. *)
Inductive Settlement : Type := Fulfilled | Rejected.

(** [p.then(A).catch(B)]: when [p] is fulfilled [A] runs, and [B] runs if
    [A] throws; when [p] is rejected only [B] runs.  A promise settles
    once. *)
Definition settle (r : CellRef) (o : Settlement) (w : World) : World :=
  match pending w !! r with
  | Some c =>
      match reg_promise c with
      | Settled => w
      | Outstanding =>
          let w1 := snd (update_cell r (set_promise Settled) w) in
          match o with
          | Fulfilled =>
              match then_callback r w1 with
              | (Ok _, w2) => w2
              | (Throw _, w2) => snd (catch_callback r w2)
              end
          | Rejected => snd (catch_callback r w1)
          end
      end
  | None => w
  end.

End Plugin.

(** ** Calling the functions the plugin made *)

(** Calling a function value, with [depth] frames of stack left. *)
Fixpoint call_fn (depth : nat) (f : Fn) : M unit :=
  match depth with
  | O => throw StackExhausted
  | S depth' =>
      match f with
      | FCancel r => update_cell r (set_cancelRegistration true)
      | FNoop => ret tt
      | FDeref r => c <- read_cell r ;; call_fn depth' (deregister c)
      | FOff mc eventName callback => mc_off mc eventName callback
      end
  end.

(** The stack a caller has; what matters is that it holds two frames. *)
Definition stack_depth : nat := 64.

Definition invoke (f : Fn) : M unit := call_fn stack_depth f.

(** Lines 174-176: the engine calls a wrapped callback with an event. *)
Definition call_callback (callback : CallbackRef) (eventObj : EventObj) : M unit :=
  fun w =>
    match callbacks w !! callback with
    | Some handler => runGuarded (emit (HandlerCalled handler eventObj)) w
    | None => (Throw NoSuchClosure, w)
    end.

(** ** Runs *)

(** What can happen, one at a time, on the single thread: the host calls
    into the plugin or calls a function it was given; the loader's promise
    of a deferred call settles; the engine installs itself; the engine
    delivers an event to a callback it was given. *)
Inductive Action : Type :=
  | ASupports (eventName : string)
  | AAddEventListener (element : Element) (eventName : string) (handler : Handler)
  | AInvoke (f : Fn)
  | ASettle (r : CellRef) (o : Settlement)
  | ASetHammer (h : option HammerLib)
  | ADeliver (callback : CallbackRef) (eventObj : EventObj).

Definition step (this : HammerGesturesPlugin) (a : Action) (w : World) : World :=
  match a with
  | ASupports n => snd (supports this n w)
  | AAddEventListener el n h => snd (addEventListener this el n h w)
  | AInvoke f => snd (invoke f w)
  | ASettle r o => settle this r o w
  | ASetHammer h => set_Hammer h w
  | ADeliver cb ev => snd (call_callback cb ev w)
  end.

Definition run (this : HammerGesturesPlugin) (acts : list Action) (w : World) : World :=
  fold_left (fun w a => step this a w) acts w.

(** The calls an action adds to the log. *)
Definition calls_of (this : HammerGesturesPlugin) (a : Action) (w : World) : list Obs :=
  drop (length (log w)) (log (step this a w)).

(** A world in which nothing has happened yet. *)
Definition initial (h : option HammerLib) : World :=
  mkWorld h Ambient [] 0 [] [].

(** ** Engines for the concrete runs *)

(** An engine whose constructor always returns an instance that has
    every recognizer, and one whose constructor always throws. *)
Definition obliging_engine : HammerLib :=
  mkLib (fun _ _ => true) (fun _ _ _ => true).

Definition refusing_engine : HammerLib :=
  mkLib (fun _ _ => false) (fun _ _ _ => true).

(** An engine in the manner of Hammer.js: an instance has the recognizers
    of the preset, unless the base options give a [recognizers] list of
    their own, rendered here as the empty list. *)
Definition preset_recognizers : list string :=
  ["tap"; "doubletap"; "press"; "pan"; "swipe"; "pinch"; "rotate"].

Definition preset_engine : HammerLib :=
  mkLib (fun _ _ => true)
        (fun _ opts recognizer =>
           match opts with
           | Some bag =>
               negb (hasOwnProperty bag "recognizers")
               && (indexOf preset_recognizers recognizer >? -1)%Z
           | None => (indexOf preset_recognizers recognizer >? -1)%Z
           end).

(** * Vocabulary of the statements *)

(** What a name must be for [supports] to go past its first test. *)
Definition recognized (this : HammerGesturesPlugin) (eventName : string) : Prop :=
  In (toLowerCase eventName) (for_in_keys EVENT_NAMES)
  \/ In eventName (events (_config this)).

(** The recognizer settings [buildHammer] sets out to make, in order:
    each a recognizer name with the options for it. *)
Definition settings (cfg : HammerGestureConfig) : list (string * option Bag) :=
  ("pinch", Some enable_true)
  :: ("rotate", Some enable_true)
  :: map (fun eventName => (eventName, prop (overrides cfg) eventName))
         (for_in_keys (overrides cfg)).

(** The settings that get made on an instance: those before the first
    one that names a recognizer the instance does not have. *)
Fixpoint applied (has : string -> bool) (l : list (string * option Bag))
    : list (string * option Bag) :=
  match l with
  | [] => []
  | s :: l' => if has (fst s) then s :: applied has l' else []
  end.

(** Whether the instance has every recognizer named. *)
Definition all_present (has : string -> bool) (l : list (string * option Bag)) : bool :=
  forallb (fun s => has (fst s)) l.

Definition set_call (mc : Manager) (s : string * option Bag) : Call :=
  RecognizerSet mc (fst s) (snd s).

(** The calls [buildHammer] makes on the engine, in order, when it gets
    through. *)
Definition build_calls (cfg : HammerGestureConfig) (mc : Manager) (element : Element) : list Call :=
  HammerNew mc element (options cfg) :: map (set_call mc) (settings cfg).

(** The calls it makes on an instance with the recognizers [has],
    whether it gets through or not. *)
Definition built_calls (cfg : HammerGestureConfig) (has : string -> bool)
    (mc : Manager) (element : Element) : list Call :=
  HammerNew mc element (options cfg) :: map (set_call mc) (applied has (settings cfg)).

(** The state a build leaves that threw for want of a recognizer: the
    instance is built and the settings before the missing one are made. *)
Definition half_built_world (cfg : HammerGestureConfig) (has : string -> bool)
    (element : Element) (w : World) : World :=
  mkWorld (Hammer w) (zone w)
    (log w ++ map (pair OutsideAngular) (built_calls cfg has (managers w) element))
    (S (managers w)) (callbacks w) (pending w).

(** The engine installed builds an instance for the element and the
    instance has every recognizer the configuration names. *)
Definition builds (lib : HammerLib) (cfg : HammerGestureConfig) (element : Element) : bool :=
  constructs lib element (options cfg)
  && all_present (recognizers lib element (options cfg)) (settings cfg).

(** The state a successful binding leaves: one more engine instance, built
    and bound outside the host's zone, and one more wrapped callback. *)
Definition bound_world (this : HammerGesturesPlugin) (element : Element)
    (eventName : string) (handler : Handler) (w : World) : World :=
  mkWorld (Hammer w) (zone w)
    (log w ++ map (pair OutsideAngular)
               (build_calls (_config this) (managers w) element
                ++ [On (managers w) (toLowerCase eventName) (length (callbacks w))]))
    (S (managers w)) (callbacks w ++ [handler]) (pending w).

(** The state a deferred call leaves: the loader called once, and a new
    cell holding the call's variables. *)
Definition deferred_world (l : LoaderFn) (element : Element)
    (eventName : string) (handler : Handler) (w : World) : World :=
  mkWorld (Hammer w) (zone w) (log w ++ [(zone w, LoaderCalled l)])
    (managers w) (callbacks w)
    (pending w ++ [mkReg false (FCancel (length (pending w))) element
                         (toLowerCase eventName) handler Outstanding]).

(** The cell of a call once its promise has settled, with the function
    [f] left in [deregister]. *)
Definition settled_with (f : Fn) (c : Registration) : Registration :=
  mkReg (cancelRegistration c) f (reg_element c) (reg_eventName c) (reg_handler c) Settled.

(** Actions that are not the settling of the call's promise leave its
    cell alone or set its flag. *)
Inductive cell_touched (c : Registration) : Registration -> Prop :=
  | touched_not : cell_touched c c
  | touched_flag : cell_touched c (set_cancelRegistration true c).

(** The settling of an outstanding promise: the registration failed, had
    been cancelled, or went through. *)
Inductive cell_settled (c : Registration) : Registration -> Prop :=
  | settled_failed :
      cell_settled c (settled_with FNoop c)
  | settled_cancelled :
      cancelRegistration c = true ->
      cell_settled c (settled_with (deregister c) c)
  | settled_bound (mc : Manager) (n : string) (cb : CallbackRef) :
      cancelRegistration c = false ->
      cell_settled c (settled_with (FOff mc n cb) c).

(** The states of a deferred call, read off its cell.

    Waiting: not settled, and nothing yet done to [deregister]:
    the cell still holds the cancelling function. *)
Definition waiting (r : CellRef) (w : World) : Prop :=
  exists c, pending w !! r = Some c /\ deregister c = FCancel r
            /\ reg_promise c = Outstanding.

(** The flag is set, and [deregister] is the cancelling function or the
    empty one. *)
Definition cancelled (r : CellRef) (w : World) : Prop :=
  exists c, pending w !! r = Some c /\ cancelRegistration c = true
            /\ (deregister c = FCancel r \/ deregister c = FNoop).

(** The promise has settled and left the empty function. *)
Definition failed (r : CellRef) (w : World) : Prop :=
  exists c, pending w !! r = Some c /\ deregister c = FNoop
            /\ reg_promise c = Settled.

(** The promise has settled and left the function that removes the
    callback [cb] from instance [mc] under the name [n]. *)
Definition bound_as (r : CellRef) (mc : Manager) (n : string) (cb : CallbackRef)
    (w : World) : Prop :=
  exists c, pending w !! r = Some c /\ deregister c = FOff mc n cb
            /\ reg_promise c = Settled.

(** Any action but the settling of the promise of call [r]. *)
Definition not_settling (r : CellRef) (a : Action) : Prop :=
  forall o, a <> ASettle r o.

(** Calls on the engine, as opposed to the console, the loader and the
    handler. *)
Definition is_engine_call (o : Obs) : bool :=
  match snd o with
  | HammerNew _ _ _ | RecognizerSet _ _ _ | On _ _ _ | Off _ _ _ => true
  | Warn _ | LoaderCalled _ | HandlerCalled _ _ => false
  end.

(** The two ways a call gets bound.  The call is made in state [w0] on
    [element], with the name [eventName] and with [handler], and returns
    the function [f] to the caller.  It is bound at once, when the engine
    is there; or it is deferred, and bound later, in the state [w] reached
    by any run, when the loader's promise is fulfilled with the engine
    installed, the constructor accepting the element, the instance having
    every recognizer the configuration names, and the call neither
    settled nor cancelled so far.  [binds this element eventName handler w0
    f a w]: the call is bound by action [a] taken in state [w]. *)
Inductive binds (this : HammerGesturesPlugin) (element : Element)
    (eventName : string) (handler : Handler) (w0 : World) (f : Fn) :
    Action -> World -> Prop :=
  | binds_at_once (lib : HammerLib) :
      Hammer w0 = Some lib ->
      constructs lib element (options (_config this)) = true ->
      fst (addEventListener this element eventName handler w0) = Ok f ->
      binds this element eventName handler w0 f
        (AAddEventListener element eventName handler) w0
  | binds_when_loaded (l : LoaderFn) (acts : list Action) (w : World)
        (c : Registration) (lib : HammerLib) :
      Hammer w0 = None ->
      loader this = Some l ->
      fst (addEventListener this element eventName handler w0) = Ok f ->
      w = run this acts (snd (addEventListener this element eventName handler w0)) ->
      pending w !! length (pending w0) = Some c ->
      reg_promise c = Outstanding ->
      cancelRegistration c = false ->
      Hammer w = Some lib ->
      constructs lib element (options (_config this)) = true ->
      all_present (recognizers lib element (options (_config this)))
        (settings (_config this)) = true ->
      binds this element eventName handler w0 f
        (ASettle (length (pending w0)) Fulfilled) w.

(** Calls that build and configure an engine instance. *)
Definition is_build (o : Obs) : bool :=
  match snd o with HammerNew _ _ _ | RecognizerSet _ _ _ => true | _ => false end.

(** Calls of [on]. *)
Definition is_on (o : Obs) : bool :=
  match snd o with On _ _ _ => true | _ => false end.

(** The four states are all there are. *)
Definition known (r : CellRef) (w : World) : Prop :=
  waiting r w \/ cancelled r w \/ failed r w
  \/ exists mc n cb, bound_as r mc n cb w.

(** A handler can be reached when some wrapped callback captures it, or
    when a deferred call that captures it has its promise outstanding. *)
Definition reachable (h : Handler) (w : World) : Prop :=
  In h (callbacks w)
  \/ exists r c, pending w !! r = Some c /\ reg_handler c = h
                 /\ reg_promise c = Outstanding.

(** Any action but a new call of [addEventListener] with handler [h]. *)
Definition not_adding (h : Handler) (a : Action) : Prop :=
  forall el n, a <> AAddEventListener el n h.

(** No one but the deferred call [r] holds handler [h]. *)
Definition sole_holder (r : CellRef) (h : Handler) (w : World) : Prop :=
  ~ In h (callbacks w)
  /\ forall r' c', pending w !! r' = Some c' -> reg_handler c' = h ->
                   reg_promise c' = Outstanding -> r' = r.

(** The cell of a deferred call keeps the element, the name and the
    handler it was created with. *)
Definition captures (r : CellRef) (el : Element) (n : string) (h : Handler)
    (w : World) : Prop :=
  exists c, pending w !! r = Some c
            /\ reg_element c = el /\ reg_eventName c = n /\ reg_handler c = h.

(** What an action can do to the state, case by case.  [step] takes one
    of these transitions, whatever the action and the state
    ([step_transition]). *)
Inductive transition (this : HammerGesturesPlugin) (w : World) : Action -> World -> Prop :=
  | tr_nothing (a : Action) :
      transition this w a w
  | tr_warning (n : string) :
      transition this w (ASupports n)
        (set_log (log w ++ [(zone w, Warn (not_loaded_message n))]) w)
  | tr_bind (el : Element) (n : string) (h : Handler) (lib : HammerLib) :
      Hammer w = Some lib ->
      builds lib (_config this) el = true ->
      transition this w (AAddEventListener el n h) (bound_world this el n h w)
  | tr_defer (el : Element) (n : string) (h : Handler) (l : LoaderFn) :
      Hammer w = None ->
      loader this = Some l ->
      transition this w (AAddEventListener el n h) (deferred_world l el n h w)
  | tr_off (f : Fn) (mc : Manager) (n : string) (cb : CallbackRef) :
      transition this w (AInvoke f) (set_log (log w ++ [(zone w, Off mc n cb)]) w)
  | tr_flag (f : Fn) (r : CellRef) (c : Registration) :
      pending w !! r = Some c ->
      transition this w (AInvoke f)
        (set_pending (<[r := set_cancelRegistration true c]> (pending w)) w)
  | tr_settle_failed (r : CellRef) (o : Settlement) (c : Registration) (msg : string) :
      pending w !! r = Some c ->
      reg_promise c = Outstanding ->
      transition this w (ASettle r o)
        (mkWorld (Hammer w) (zone w) (log w ++ [(zone w, Warn msg)])
           (managers w) (callbacks w) (<[r := settled_with FNoop c]> (pending w)))
  | tr_settle_cancelled (r : CellRef) (c : Registration) :
      pending w !! r = Some c ->
      reg_promise c = Outstanding ->
      cancelRegistration c = true ->
      transition this w (ASettle r Fulfilled)
        (set_pending (<[r := settled_with (deregister c) c]> (pending w)) w)
  | tr_settle_bound (r : CellRef) (c : Registration) (lib : HammerLib) :
      pending w !! r = Some c ->
      reg_promise c = Outstanding ->
      cancelRegistration c = false ->
      Hammer w = Some lib ->
      builds lib (_config this) (reg_element c) = true ->
      transition this w (ASettle r Fulfilled)
        (set_pending
           (<[r := settled_with (FOff (managers w) (toLowerCase (reg_eventName c))
                                      (length (callbacks w))) c]> (pending w))
           (bound_world this (reg_element c) (reg_eventName c) (reg_handler c) w))
  | tr_install (hm : option HammerLib) :
      transition this w (ASetHammer hm) (set_Hammer hm w)
  | tr_deliver (cb : CallbackRef) (ev : EventObj) (h : Handler) :
      callbacks w !! cb = Some h ->
      transition this w (ADeliver cb ev)
        (set_log (log w ++ [(Guarded, HandlerCalled h ev)]) w)
  | tr_half_built (el : Element) (n : string) (h : Handler) (lib : HammerLib) :
      Hammer w = Some lib ->
      constructs lib el (options (_config this)) = true ->
      all_present (recognizers lib el (options (_config this)))
        (settings (_config this)) = false ->
      transition this w (AAddEventListener el n h)
        (half_built_world (_config this) (recognizers lib el (options (_config this))) el w)
  | tr_settle_half_built (r : CellRef) (c : Registration) (lib : HammerLib) :
      pending w !! r = Some c ->
      reg_promise c = Outstanding ->
      cancelRegistration c = false ->
      Hammer w = Some lib ->
      constructs lib (reg_element c) (options (_config this)) = true ->
      all_present (recognizers lib (reg_element c) (options (_config this)))
        (settings (_config this)) = false ->
      transition this w (ASettle r Fulfilled)
        (mkWorld (Hammer w) (zone w)
           (log w
            ++ map (pair OutsideAngular)
                 (built_calls (_config this)
                    (recognizers lib (reg_element c) (options (_config this)))
                    (managers w) (reg_element c))
            ++ [(zone w, Warn (loader_failed_message (reg_eventName c)))])
           (S (managers w)) (callbacks w)
           (<[r := settled_with FNoop c]> (pending w))).

(** The zone each kind of call is made in, [ambient] being the zone the
    plugin was entered from. *)
Definition zone_of_call (ambient : Zone) (c : Call) : Zone :=
  match c with
  | HammerNew _ _ _ | RecognizerSet _ _ _ | On _ _ _ => OutsideAngular
  | HandlerCalled _ _ => Guarded
  | Warn _ | LoaderCalled _ | Off _ _ _ => ambient
  end.

(** Calls of the engine's constructor. *)
Definition is_new (o : Obs) : bool :=
  match snd o with HammerNew _ _ _ => true | _ => false end.

(** The instances built, and the instance and callback of each [on], in
    the order of the log. *)
Fixpoint instances_built (l : list Obs) : list Manager :=
  match l with
  | [] => []
  | (_, HammerNew mc _ _) :: l' => mc :: instances_built l'
  | _ :: l' => instances_built l'
  end.

Fixpoint listeners (l : list Obs) : list (Manager * CallbackRef) :=
  match l with
  | [] => []
  | (_, On mc _ cb) :: l' => (mc, cb) :: listeners l'
  | _ :: l' => listeners l'
  end.

(** The options last given to recognizer [k] of instance [mc] in a
    sequence of calls; [None] when it was never set. *)
Fixpoint last_setting (mc : Manager) (k : string) (l : list Obs) : option (option Bag) :=
  match l with
  | [] => None
  | o :: l' =>
      match last_setting mc k l' with
      | Some opts => Some opts
      | None =>
          match snd o with
          | RecognizerSet mc' k' opts =>
              if Nat.eqb mc' mc && String.eqb k' k then Some opts else None
          | _ => None
          end
      end
  end.

(** Any action but the engine installing or removing itself. *)
Definition not_installing (a : Action) : Prop :=
  forall hm, a <> ASetHammer hm.

(** * Properties *)

(** ** Strings and objects *)

Example indexOf_found : indexOf ["a"; "b"; "c"; "b"] "b" = 1%Z.
Proof. reflexivity. Qed.

Example indexOf_missing : indexOf ["a"; "b"] "B" = (-1)%Z.
Proof. reflexivity. Qed.

Example hasOwnProperty_exact :
  hasOwnProperty EVENT_NAMES "pinchout" = true
  /\ hasOwnProperty EVENT_NAMES "PinchOut" = false
  /\ hasOwnProperty EVENT_NAMES "toString" = false.
Proof. repeat split; reflexivity. Qed.

Example prop_first : prop [("a", 1); ("b", 2); ("a", 3)] "a" = Some 1.
Proof. reflexivity. Qed.

Lemma hasOwnProperty_In {V} (o : JsObject V) (k : string) :
  hasOwnProperty o k = true <-> In k (for_in_keys o).
Proof.
  unfold hasOwnProperty, for_in_keys. rewrite existsb_exists, in_map_iff.
  split; intros [kv [H1 H2]]; exists kv.
  - apply String.eqb_eq in H2. auto.
  - split; [assumption|]. now apply String.eqb_eq.
Qed.

Lemma indexOf_lower_bound (l : list string) (x : string) : (-1 <= indexOf l x)%Z.
Proof.
  induction l as [|y l IH]; simpl; [lia|].
  destruct (String.eqb y x); [lia|].
  destruct (Z.ltb_spec (indexOf l x) 0); lia.
Qed.

Lemma indexOf_In (l : list string) (x : string) :
  (indexOf l x >? -1)%Z = true <-> In x l.
Proof.
  induction l as [|y l IH]; simpl.
  - split; [discriminate | tauto].
  - destruct (String.eqb_spec y x) as [->|Hne].
    + split; auto.
    + pose proof (indexOf_lower_bound l x) as Hlb.
      destruct (Z.ltb_spec (indexOf l x) 0) as [Hneg|Hpos].
      * split; [discriminate|].
        intros [Heq|Hin]; [congruence|].
        apply IH in Hin. apply Z.gtb_lt in Hin. lia.
      * split.
        -- intros _. right. apply IH. apply Z.gtb_lt. lia.
        -- intros _. apply Z.gtb_lt. lia.
Qed.

Lemma prop_of_key {V} (o : JsObject V) (k : string) :
  In k (for_in_keys o) -> exists v, prop o k = Some v /\ In (k, v) o.
Proof.
  induction o as [|[k' v'] o IH]; simpl; [tauto|].
  intros Hin. destruct (String.eqb_spec k' k) as [->|Hne].
  - exists v'. auto.
  - destruct Hin as [Heq|Hin]; [congruence|].
    destruct (IH Hin) as [v [Hv Hm]]. exists v. auto.
Qed.

(** ** The log only grows, field by field *)

Lemma set_log_id (w : World) : set_log (log w) w = w.
Proof. now destruct w. Qed.

Lemma for_each_emit {K} (ks : list K) (g : K -> Call) (w : World) :
  for_each ks (fun k => emit (g k)) w
  = (Ok tt, set_log (log w ++ map (fun k => (zone w, g k)) ks) w).
Proof.
  revert w. induction ks as [|k ks IH]; intros w; simpl.
  - unfold ret. now rewrite app_nil_r, set_log_id.
  - unfold bind at 1. unfold emit at 1. rewrite IH. simpl.
    now rewrite <- app_assoc.
Qed.

Lemma first_test_recognized (this : HammerGesturesPlugin) (eventName : string) :
  negb (hasOwnProperty EVENT_NAMES (toLowerCase eventName))
  && negb (isCustomEvent this eventName) = false
  <-> recognized this eventName.
Proof.
  unfold recognized, isCustomEvent.
  rewrite <- hasOwnProperty_In, <- indexOf_In.
  destruct (hasOwnProperty _ _), (_ >? _)%Z; simpl; intuition congruence.
Qed.

Lemma set_log_neq (w : World) (o : Obs) : set_log (log w ++ [o]) w <> w.
Proof.
  intros H. apply (f_equal log) in H. simpl in H.
  apply (f_equal (@length Obs)) in H. rewrite length_app in H. simpl in H. lia.
Qed.

(** C4.  [supports] goes past its first test exactly for the names whose
    lowercase form is a key of [EVENT_NAMES] or that occur, as they are
    written, in the configured custom event names: for every other name it
    returns false and does nothing else, and it answers true exactly for
    the recognized names when the engine is present or a loader is
    configured. *)
Theorem supports_recognizes (this : HammerGesturesPlugin) (eventName : string) (w : World) :
  (recognized this eventName <-> supports this eventName w <> (Ok false, w))
  /\ (~ recognized this eventName <-> supports this eventName w = (Ok false, w))
  /\ (fst (supports this eventName w) = Ok true
      <-> recognized this eventName /\ (is_Some (Hammer w) \/ is_Some (loader this))).
Proof.
  pose proof (first_test_recognized this eventName) as Hrec.
  unfold supports.
  destruct (negb (hasOwnProperty EVENT_NAMES (toLowerCase eventName))
            && negb (isCustomEvent this eventName)) eqn:Htest.
  - assert (~ recognized this eventName) as Hn by (rewrite <- Hrec; discriminate).
    unfold ret. simpl. intuition congruence.
  - assert (recognized this eventName) as Hy by (now apply Hrec).
    unfold bind, window_Hammer.
    destruct (Hammer w) as [lib|] eqn:HH; [|destruct (loader this) as [l|] eqn:HL];
      simpl; unfold ret, console_warn, emit; simpl.
    + repeat split; try tauto; try congruence; eauto.
    + repeat split; try tauto; try congruence; eauto.
    + pose proof (set_log_neq w (zone w, Warn (not_loaded_message eventName))) as Hneq.
      split; [|split]; split; try tauto; try discriminate.
      * intros _ Heq. apply Hneq. exact (f_equal snd Heq).
      * intros Heq. exfalso. apply Hneq. exact (f_equal snd Heq).
      * intros [_ [[? ?]|[? ?]]]; discriminate.
Qed.

(** C5.  With the engine absent and no loader configured, a call of
    [supports] on a recognized name returns false and logs one warning,
    whose text quotes the name as it was passed; on a name that is not
    recognized it returns false and logs nothing. *)
Theorem supports_warns_when_unavailable
    (this : HammerGesturesPlugin) (eventName : string) (w : World) :
  Hammer w = None ->
  loader this = None ->
  (recognized this eventName ->
     supports this eventName w
     = (Ok false, set_log (log w ++ [(zone w, Warn (not_loaded_message eventName))]) w))
  /\ (~ recognized this eventName -> supports this eventName w = (Ok false, w))
  /\ not_loaded_message eventName
     = ("The " +:+ dq) +:+ eventName
       +:+ (dq +:+ " event cannot be bound because Hammer.JS is not loaded and no custom loader has been specified.").
Proof.
  intros HH HL.
  pose proof (first_test_recognized this eventName) as Hrec.
  split; [|split].
  - intros Hy. apply Hrec in Hy. unfold supports. rewrite Hy.
    unfold bind, window_Hammer. rewrite HH, HL. reflexivity.
  - intros Hn. unfold supports.
    destruct (negb (hasOwnProperty EVENT_NAMES (toLowerCase eventName))
              && negb (isCustomEvent this eventName)) eqn:Htest; [reflexivity|].
    exfalso. apply Hn. now apply Hrec.
  - reflexivity.
Qed.

(** ** buildHammer *)

Lemma applied_all (has : string -> bool) (l : list (string * option Bag)) :
  all_present has l = true -> applied has l = l.
Proof.
  induction l as [|x l IH]; simpl; [reflexivity|].
  destruct (has (fst x)); simpl; [|discriminate].
  intros H. now rewrite IH.
Qed.

Lemma applied_prefix (has : string -> bool) (l : list (string * option Bag)) :
  exists rest, l = applied has l ++ rest
               /\ (all_present has l = false ->
                   exists x rest', rest = x :: rest' /\ has (fst x) = false).
Proof.
  induction l as [|x l [rest [IH1 IH2]]]; simpl.
  - exists []. split; [reflexivity|discriminate].
  - destruct (has (fst x)) eqn:Hx; simpl.
    + exists rest. split; [now rewrite <- IH1|exact IH2].
    + exists (x :: l). split; [reflexivity|]. intros _. eauto.
Qed.

Lemma applied_present (has : string -> bool) (l : list (string * option Bag)) :
  Forall (fun x => has (fst x) = true) (applied has l).
Proof.
  induction l as [|x l IH]; simpl; [constructor|].
  destruct (has (fst x)) eqn:Hx; constructor; assumption.
Qed.

(** The loop of settings stops at the first recognizer the instance
    does not have. *)
Lemma for_each_set {K} (mc : HammerInstance) (g : K -> string * option Bag)
    (ks : list K) (w : World) :
  for_each ks (fun k => recognizer_set mc (fst (g k)) (snd (g k))) w
  = (if all_present (mc_has mc) (map g ks) then Ok tt else Throw NoRecognizer,
     set_log (log w ++ map (pair (zone w))
                         (map (set_call (mc_id mc)) (applied (mc_has mc) (map g ks)))) w).
Proof.
  revert w. induction ks as [|k ks IH]; intros w; simpl.
  - unfold ret. now rewrite app_nil_r, set_log_id.
  - unfold bind at 1. unfold recognizer_set at 1.
    destruct (mc_has mc (fst (g k))) eqn:Hk; simpl.
    + rewrite IH. simpl. now rewrite <- app_assoc.
    + now rewrite app_nil_r, set_log_id.
Qed.

Lemma buildHammer_built (cfg : HammerGestureConfig) (element : Element) (w : World) (lib : HammerLib) :
  Hammer w = Some lib ->
  constructs lib element (options cfg) = true ->
  buildHammer cfg element w
  = (if all_present (recognizers lib element (options cfg)) (settings cfg)
     then Ok (mkInstance (managers w) (recognizers lib element (options cfg)))
     else Throw NoRecognizer,
     set_log (log w ++ map (pair (zone w))
                         (built_calls cfg (recognizers lib element (options cfg))
                            (managers w) element))
             (set_managers (S (managers w)) w)).
Proof.
  intros HH Hc. unfold buildHammer, new_Hammer.
  unfold bind at 1. unfold bind at 1. unfold window_Hammer at 1. rewrite HH, Hc.
  unfold bind at 1. unfold fresh_manager at 1.
  unfold bind at 1. unfold emit at 1. unfold ret at 1.
  unfold all_present, built_calls, settings. simpl.
  set (has := recognizers lib element (options cfg)).
  unfold bind at 1. unfold recognizer_set at 1. simpl.
  destruct (has "pinch") eqn:Hp; simpl.
  - unfold bind at 1. unfold recognizer_set at 1. simpl.
    destruct (has "rotate") eqn:Hr; simpl.
    + unfold bind at 1.
      rewrite (for_each_set (mkInstance (managers w) has)
                 (fun k => (k, prop (overrides cfg) k)) (for_in_keys (overrides cfg))).
      unfold all_present. simpl.
      destruct (forallb _ _); unfold ret, set_log; simpl;
        now rewrite <- !app_assoc.
    + unfold set_log. simpl. now rewrite <- !app_assoc.
  - reflexivity.
Qed.

Lemma buildHammer_ok (cfg : HammerGestureConfig) (element : Element) (w : World) (lib : HammerLib) :
  Hammer w = Some lib ->
  builds lib cfg element = true ->
  buildHammer cfg element w
  = (Ok (mkInstance (managers w) (recognizers lib element (options cfg))),
     set_log (log w ++ map (pair (zone w)) (build_calls cfg (managers w) element))
             (set_managers (S (managers w)) w)).
Proof.
  intros HH Hb. apply andb_prop in Hb as [Hc Hall].
  rewrite (buildHammer_built cfg element w lib HH Hc), Hall.
  unfold built_calls, build_calls. now rewrite (applied_all _ _ Hall).
Qed.

Lemma buildHammer_half_built (cfg : HammerGestureConfig) (element : Element) (w : World) (lib : HammerLib) :
  Hammer w = Some lib ->
  constructs lib element (options cfg) = true ->
  all_present (recognizers lib element (options cfg)) (settings cfg) = false ->
  buildHammer cfg element w
  = (Throw NoRecognizer,
     set_log (log w ++ map (pair (zone w))
                         (built_calls cfg (recognizers lib element (options cfg))
                            (managers w) element))
             (set_managers (S (managers w)) w)).
Proof.
  intros HH Hc Hall. now rewrite (buildHammer_built cfg element w lib HH Hc), Hall.
Qed.

Lemma buildHammer_absent (cfg : HammerGestureConfig) (element : Element) (w : World) :
  Hammer w = None ->
  buildHammer cfg element w = (Throw HammerNotDefined, w).
Proof.
  intros HH. unfold buildHammer, new_Hammer, bind, window_Hammer. now rewrite HH.
Qed.

Lemma buildHammer_refused (cfg : HammerGestureConfig) (element : Element) (w : World) (lib : HammerLib) :
  Hammer w = Some lib ->
  constructs lib element (options cfg) = false ->
  buildHammer cfg element w = (Throw EngineThrew, w).
Proof.
  intros HH Hc. unfold buildHammer, new_Hammer, bind, window_Hammer. now rewrite HH, Hc.
Qed.

Lemma all_present_In (has : string -> bool) (l : list (string * option Bag)) :
  all_present has l = true <-> (forall x, In x l -> has (fst x) = true).
Proof. unfold all_present. apply forallb_forall. Qed.

Lemma applied_stops (has : string -> bool) (before after : list (string * option Bag))
    (x : string * option Bag) :
  (forall y, In y before -> has (fst y) = true) ->
  has (fst x) = false ->
  applied has (before ++ x :: after) = before
  /\ all_present has (before ++ x :: after) = false.
Proof.
  intros Hb Hx. induction before as [|y before IH]; simpl.
  - now rewrite Hx.
  - rewrite (Hb y) by now left. simpl.
    destruct IH as [IH1 IH2]; [intros z Hz; apply Hb; now right|].
    now rewrite IH1, IH2.
Qed.

(** C6, amended.  When the engine is present and its constructor accepts
    the element, [buildHammer] builds one instance from the element and
    the base options and then makes its settings in this order:
    [{enable: true}] on the pinch recognizer, [{enable: true}] on the
    rotate recognizer, and for every key of [overrides] the bag the key
    holds on the recognizer of that name.  It gets through them all and
    returns the instance when the instance has a recognizer of every name;
    at the first name for which it has none the call throws, with the
    instance built, the settings before that one made and none after
    it. *)
Theorem buildHammer_calls
    (cfg : HammerGestureConfig) (element : Element) (w : World) (lib : HammerLib) :
  Hammer w = Some lib ->
  constructs lib element (options cfg) = true ->
  let mc := managers w in
  let has := recognizers lib element (options cfg) in
  let wanted :=
    [("pinch", Some [("enable", "true")]); ("rotate", Some [("enable", "true")])]
    ++ map (fun eventName => (eventName, prop (overrides cfg) eventName))
         (for_in_keys (overrides cfg)) in
  let w' := snd (buildHammer cfg element w) in
  log w'
  = log w
    ++ map (pair (zone w))
         (HammerNew mc element (options cfg)
          :: map (fun x => RecognizerSet mc (fst x) (snd x)) (applied has wanted))
  /\ managers w' = S (managers w)
  /\ callbacks w' = callbacks w /\ pending w' = pending w
  /\ zone w' = zone w /\ Hammer w' = Hammer w
  /\ ((forall x, In x wanted -> has (fst x) = true) ->
      fst (buildHammer cfg element w) = Ok (mkInstance mc has)
      /\ applied has wanted = wanted
      /\ (forall eventName, In eventName (for_in_keys (overrides cfg)) ->
            exists bag, prop (overrides cfg) eventName = Some bag
                        /\ In (eventName, bag) (overrides cfg)
                        /\ In (zone w, RecognizerSet mc eventName (Some bag)) (log w')))
  /\ (forall before x after,
        wanted = before ++ x :: after ->
        (forall y, In y before -> has (fst y) = true) ->
        has (fst x) = false ->
        fst (buildHammer cfg element w) = Throw NoRecognizer
        /\ applied has wanted = before).
Proof.
  intros HH Hc mc has wanted w'. subst mc w'.
  rewrite (buildHammer_built cfg element w lib HH Hc).
  change (settings cfg) with wanted. fold has.
  cbn [fst snd]. unfold set_log, set_managers, built_calls. cbn [log managers callbacks pending zone Hammer].
  change (settings cfg) with wanted. unfold set_call.
  split; [reflexivity|]. do 5 (split; [reflexivity|]).
  split.
  - intros Hall. apply all_present_In in Hall. rewrite Hall.
    rewrite (applied_all _ _ Hall).
    split; [reflexivity|]. split; [reflexivity|].
    intros eventName Hin. destruct (prop_of_key _ _ Hin) as [bag [Hp Hm]].
    exists bag. split; [assumption|]. split; [assumption|].
    apply in_or_app. right. right. rewrite <- Hp.
    apply (in_map (pair (zone w))).
    change (RecognizerSet (managers w) eventName (prop (overrides cfg) eventName))
      with ((fun x : string * option Bag => RecognizerSet (managers w) (fst x) (snd x))
              (eventName, prop (overrides cfg) eventName)).
    apply in_map. unfold wanted. apply in_or_app. right.
    apply in_map_iff. eauto.
  - intros before x after Hw Hb Hx.
    destruct (applied_stops has before after x Hb Hx) as [Ha Hall].
    clearbody wanted. subst wanted. split; [|exact Ha].
    match goal with
    | |- (if ?b then _ else _) = _ => replace b with false by (symmetry; exact Hall)
    end.
    reflexivity.
Qed.

(** ** addEventListener, case by case *)

Section Cases.

Variable this : HammerGesturesPlugin.
Variables (element : Element) (eventName : string) (handler : Handler).

Lemma addEventListener_bound (w : World) (lib : HammerLib) :
  Hammer w = Some lib ->
  builds lib (_config this) element = true ->
  addEventListener this element eventName handler w
  = (Ok (FOff (managers w) (toLowerCase eventName) (length (callbacks w))),
     bound_world this element eventName handler w).
Proof.
  intros HH Hc. unfold addEventListener.
  unfold bind at 1. unfold window_Hammer at 1. rewrite HH.
  unfold runOutsideAngular, run_in. unfold bind at 1.
  rewrite (buildHammer_ok _ _ _ lib) by (simpl; assumption).
  destruct w; simpl in *. unfold bound_world. simpl.
  rewrite map_app, <- app_assoc. reflexivity.
Qed.

Lemma addEventListener_half_built (w : World) (lib : HammerLib) :
  Hammer w = Some lib ->
  constructs lib element (options (_config this)) = true ->
  all_present (recognizers lib element (options (_config this)))
    (settings (_config this)) = false ->
  addEventListener this element eventName handler w
  = (Throw NoRecognizer,
     half_built_world (_config this) (recognizers lib element (options (_config this)))
       element w).
Proof.
  intros HH Hc Hall. unfold addEventListener.
  unfold bind at 1. unfold window_Hammer at 1. rewrite HH.
  unfold runOutsideAngular, run_in. unfold bind at 1.
  rewrite (buildHammer_half_built _ _ _ lib) by (simpl; assumption).
  destruct w; reflexivity.
Qed.

Lemma addEventListener_refused (w : World) (lib : HammerLib) :
  Hammer w = Some lib ->
  constructs lib element (options (_config this)) = false ->
  addEventListener this element eventName handler w = (Throw EngineThrew, w).
Proof.
  intros HH Hc. unfold addEventListener.
  unfold bind at 1. unfold window_Hammer at 1. rewrite HH.
  unfold runOutsideAngular, run_in. unfold bind at 1.
  rewrite (buildHammer_refused _ _ _ lib) by (simpl; assumption).
  now destruct w.
Qed.

Lemma builds_of_parts (lib : HammerLib) :
  constructs lib element (options (_config this)) = true ->
  all_present (recognizers lib element (options (_config this)))
    (settings (_config this)) = true ->
  builds lib (_config this) element = true.
Proof. intros Hk Hall. unfold builds. now rewrite Hk, Hall. Qed.

Lemma returns_builds (w : World) (lib : HammerLib) (f : Fn) :
  Hammer w = Some lib ->
  fst (addEventListener this element eventName handler w) = Ok f ->
  builds lib (_config this) element = true.
Proof.
  intros HH Hf. unfold builds.
  destruct (constructs lib element (options (_config this))) eqn:Hk.
  - destruct (all_present (recognizers lib element (options (_config this)))
                (settings (_config this))) eqn:Hall; [reflexivity|].
    rewrite (addEventListener_half_built w lib HH Hk Hall) in Hf. discriminate.
  - rewrite (addEventListener_refused w lib HH Hk) in Hf. discriminate.
Qed.

Lemma addEventListener_deferred (w : World) (l : LoaderFn) :
  Hammer w = None ->
  loader this = Some l ->
  addEventListener this element eventName handler w
  = (Ok (FDeref (length (pending w))), deferred_world l element eventName handler w).
Proof.
  intros HH HL. unfold addEventListener.
  unfold bind at 1. unfold window_Hammer at 1. rewrite HH, HL.
  destruct w; reflexivity.
Qed.

Lemma addEventListener_unavailable (w : World) :
  Hammer w = None ->
  loader this = None ->
  addEventListener this element eventName handler w = (Throw HammerNotDefined, w).
Proof.
  intros HH HL. unfold addEventListener.
  unfold bind at 1. unfold window_Hammer at 1. rewrite HH, HL.
  unfold runOutsideAngular, run_in. unfold bind at 1.
  rewrite buildHammer_absent by (simpl; assumption).
  now destruct w.
Qed.

End Cases.

(** C3, amended.  With the engine absent and no loader
    configured, [supports] answers false for every name; if
    [addEventListener] is called all the same, it goes on to build the
    engine instance, the construction throws, the exception reaches the
    caller, and the state is left as it was: nothing is bound, nothing is
    logged and no function is returned. *)
Theorem addEventListener_unavailable_throws
    (this : HammerGesturesPlugin) (element : Element) (eventName : string)
    (handler : Handler) (w : World) :
  Hammer w = None ->
  loader this = None ->
  fst (supports this eventName w) = Ok false
  /\ addEventListener this element eventName handler w = (Throw HammerNotDefined, w)
  /\ (forall f w', addEventListener this element eventName handler w <> (Ok f, w'))
  /\ calls_of this (AAddEventListener element eventName handler) w = [].
Proof.
  intros HH HL.
  pose proof (addEventListener_unavailable this element eventName handler w HH HL) as Hthrow.
  split; [|split; [exact Hthrow|split]].
  - unfold supports.
    destruct (negb (hasOwnProperty EVENT_NAMES (toLowerCase eventName))
              && negb (isCustomEvent this eventName)); [reflexivity|].
    unfold bind, window_Hammer. now rewrite HH, HL.
  - intros f w' H. rewrite Hthrow in H. discriminate.
  - unfold calls_of. simpl. rewrite Hthrow. simpl. apply drop_all.
Qed.

(** ** The store of deferred calls *)

Lemma read_cell_some (r : CellRef) (w : World) (c : Registration) :
  pending w !! r = Some c -> read_cell r w = (Ok c, w).
Proof. intros H. unfold read_cell. now rewrite H. Qed.

Lemma update_cell_some (r : CellRef) (f : Registration -> Registration)
    (w : World) (c : Registration) :
  pending w !! r = Some c ->
  update_cell r f w = (Ok tt, set_pending (<[r := f c]> (pending w)) w).
Proof. intros H. unfold update_cell, bind. now rewrite (read_cell_some r w c H). Qed.

Lemma update_cell_none (r : CellRef) (f : Registration -> Registration) (w : World) :
  pending w !! r = None -> update_cell r f w = (Throw NoSuchClosure, w).
Proof. intros H. unfold update_cell, bind, read_cell. now rewrite H. Qed.

Lemma lookup_written (r : CellRef) (c c' : Registration) (p : list Registration) :
  p !! r = Some c -> <[r := c']> p !! r = Some c'.
Proof. intros H. apply list_lookup_insert_eq. eapply lookup_lt_Some, H. Qed.

Section Settling.

Variable this : HammerGesturesPlugin.
Variables (r : CellRef) (c : Registration) (w : World).
Hypothesis Hcell : pending w !! r = Some c.

Lemma settle_again (o : Settlement) :
  reg_promise c = Settled -> settle this r o w = w.
Proof. intros Hp. unfold settle. now rewrite Hcell, Hp. Qed.

Hypothesis Hout : reg_promise c = Outstanding.

Lemma settle_rejected :
  settle this r Rejected w
  = mkWorld (Hammer w) (zone w)
      (log w ++ [(zone w, Warn (loader_failed_message (reg_eventName c)))])
      (managers w) (callbacks w)
      (<[r := settled_with FNoop c]> (pending w)).
Proof.
  unfold settle. rewrite Hcell, Hout.
  rewrite (update_cell_some _ _ _ _ Hcell). simpl.
  unfold catch_callback. unfold bind at 1.
  erewrite read_cell_some by (simpl; eapply lookup_written, Hcell).
  unfold bind at 1. unfold console_warn, emit.
  erewrite update_cell_some by (simpl; eapply lookup_written, Hcell).
  simpl. unfold set_pending. simpl. now rewrite list_insert_insert_eq.
Qed.

Lemma settle_fulfilled_absent :
  Hammer w = None ->
  settle this r Fulfilled w
  = mkWorld (Hammer w) (zone w)
      (log w ++ [(zone w, Warn loader_absent_message)])
      (managers w) (callbacks w)
      (<[r := settled_with FNoop c]> (pending w)).
Proof.
  intros HH. unfold settle. rewrite Hcell, Hout.
  rewrite (update_cell_some _ _ _ _ Hcell). simpl.
  unfold then_callback. unfold bind at 1. unfold window_Hammer. simpl. rewrite HH.
  unfold bind at 1. unfold console_warn, emit.
  erewrite update_cell_some by (simpl; eapply lookup_written, Hcell).
  simpl. unfold set_pending. simpl. now rewrite list_insert_insert_eq, HH.
Qed.

Lemma settle_fulfilled_cancelled (lib : HammerLib) :
  Hammer w = Some lib ->
  cancelRegistration c = true ->
  settle this r Fulfilled w
  = mkWorld (Hammer w) (zone w) (log w) (managers w) (callbacks w)
      (<[r := settled_with (deregister c) c]> (pending w)).
Proof.
  intros HH Hc. unfold settle. rewrite Hcell, Hout.
  rewrite (update_cell_some _ _ _ _ Hcell). simpl.
  unfold then_callback. unfold bind at 1. unfold window_Hammer. simpl. rewrite HH.
  unfold bind at 1.
  erewrite read_cell_some by (simpl; eapply lookup_written, Hcell).
  simpl. rewrite Hc. simpl. unfold ret, set_pending. simpl. now rewrite HH.
Qed.

Lemma settle_fulfilled_half_built (lib : HammerLib) :
  Hammer w = Some lib ->
  cancelRegistration c = false ->
  constructs lib (reg_element c) (options (_config this)) = true ->
  all_present (recognizers lib (reg_element c) (options (_config this)))
    (settings (_config this)) = false ->
  settle this r Fulfilled w
  = mkWorld (Hammer w) (zone w)
      (log w
       ++ map (pair OutsideAngular)
            (built_calls (_config this)
               (recognizers lib (reg_element c) (options (_config this)))
               (managers w) (reg_element c))
       ++ [(zone w, Warn (loader_failed_message (reg_eventName c)))])
      (S (managers w)) (callbacks w)
      (<[r := settled_with FNoop c]> (pending w)).
Proof.
  intros HH Hc Hk Hall. unfold settle. rewrite Hcell, Hout.
  rewrite (update_cell_some _ _ _ _ Hcell). simpl.
  unfold then_callback. unfold bind at 1. unfold window_Hammer. simpl. rewrite HH.
  unfold bind at 1.
  erewrite read_cell_some by (simpl; eapply lookup_written, Hcell).
  simpl. rewrite Hc. simpl. unfold bind at 1.
  rewrite (addEventListener_half_built _ _ _ _ _ lib) by (simpl; assumption).
  unfold catch_callback. unfold bind at 1.
  erewrite read_cell_some by (simpl; eapply lookup_written, Hcell).
  unfold bind at 1. unfold console_warn, emit.
  erewrite update_cell_some by (simpl; eapply lookup_written, Hcell).
  simpl. unfold set_pending. simpl.
  now rewrite list_insert_insert_eq, <- app_assoc, ?HH.
Qed.

Lemma settle_fulfilled_bound (lib : HammerLib) :
  Hammer w = Some lib ->
  cancelRegistration c = false ->
  builds lib (_config this) (reg_element c) = true ->
  settle this r Fulfilled w
  = set_pending
      (<[r := settled_with (FOff (managers w) (toLowerCase (reg_eventName c))
                                 (length (callbacks w))) c]> (pending w))
      (bound_world this (reg_element c) (reg_eventName c) (reg_handler c) w).
Proof.
  intros HH Hc Hk. unfold settle. rewrite Hcell, Hout.
  rewrite (update_cell_some _ _ _ _ Hcell). simpl.
  unfold then_callback. unfold bind at 1. unfold window_Hammer. simpl. rewrite HH.
  unfold bind at 1.
  erewrite read_cell_some by (simpl; eapply lookup_written, Hcell).
  simpl. rewrite Hc. simpl. unfold bind at 1.
  rewrite (addEventListener_bound _ _ _ _ _ lib) by (simpl; assumption).
  erewrite update_cell_some by (simpl; eapply lookup_written, Hcell).
  simpl. unfold set_pending, bound_world. simpl.
  now rewrite list_insert_insert_eq, ?HH.
Qed.

Lemma settle_fulfilled_refused (lib : HammerLib) :
  Hammer w = Some lib ->
  cancelRegistration c = false ->
  constructs lib (reg_element c) (options (_config this)) = false ->
  settle this r Fulfilled w
  = mkWorld (Hammer w) (zone w)
      (log w ++ [(zone w, Warn (loader_failed_message (reg_eventName c)))])
      (managers w) (callbacks w)
      (<[r := settled_with FNoop c]> (pending w)).
Proof.
  intros HH Hc Hk. unfold settle. rewrite Hcell, Hout.
  rewrite (update_cell_some _ _ _ _ Hcell). simpl.
  unfold then_callback. unfold bind at 1. unfold window_Hammer. simpl. rewrite HH.
  unfold bind at 1.
  erewrite read_cell_some by (simpl; eapply lookup_written, Hcell).
  simpl. rewrite Hc. simpl. unfold bind at 1.
  rewrite (addEventListener_refused _ _ _ _ _ lib) by (simpl; assumption).
  unfold catch_callback. unfold bind at 1.
  erewrite read_cell_some by (simpl; eapply lookup_written, Hcell).
  unfold bind at 1. unfold console_warn, emit.
  erewrite update_cell_some by (simpl; eapply lookup_written, Hcell).
  simpl. unfold set_pending. simpl. now rewrite list_insert_insert_eq, ?HH.
Qed.

End Settling.

Lemma settle_unknown (this : HammerGesturesPlugin) (r : CellRef) (o : Settlement) (w : World) :
  pending w !! r = None -> settle this r o w = w.
Proof. intros H. unfold settle. now rewrite H. Qed.

(** ** Calling a deregistration function *)

Lemma invoke_FOff (mc : Manager) (n : string) (cb : CallbackRef) (w : World) :
  invoke (FOff mc n cb) w = (Ok tt, set_log (log w ++ [(zone w, Off mc n cb)]) w).
Proof. reflexivity. Qed.

Lemma invoke_FNoop (w : World) : invoke FNoop w = (Ok tt, w).
Proof. reflexivity. Qed.

Lemma invoke_FCancel (r : CellRef) (c : Registration) (w : World) :
  pending w !! r = Some c ->
  invoke (FCancel r) w
  = (Ok tt, set_pending (<[r := set_cancelRegistration true c]> (pending w)) w).
Proof. intros H. unfold invoke, stack_depth. simpl. now apply update_cell_some. Qed.

Lemma invoke_FDeref (r : CellRef) (c : Registration) (w : World) :
  pending w !! r = Some c ->
  invoke (FDeref r) w = call_fn (pred stack_depth) (deregister c) w.
Proof.
  intros H. unfold invoke, stack_depth. simpl call_fn at 1. unfold bind.
  now rewrite (read_cell_some r w c H).
Qed.

(** The handle of a deferred call whose cell still holds the cancelling
    function: calling it sets the flag and nothing else. *)
Lemma invoke_handle_cancels (r : CellRef) (c : Registration) (w : World) :
  pending w !! r = Some c ->
  deregister c = FCancel r ->
  invoke (FDeref r) w
  = (Ok tt, set_pending (<[r := set_cancelRegistration true c]> (pending w)) w).
Proof.
  intros H Hd. rewrite (invoke_FDeref r c w H), Hd. simpl.
  now apply update_cell_some.
Qed.

Lemma invoke_handle_noop (r : CellRef) (c : Registration) (w : World) :
  pending w !! r = Some c ->
  deregister c = FNoop ->
  invoke (FDeref r) w = (Ok tt, w).
Proof. intros H Hd. now rewrite (invoke_FDeref r c w H), Hd. Qed.

Lemma invoke_handle_off (r : CellRef) (c : Registration) (w : World)
    (mc : Manager) (n : string) (cb : CallbackRef) :
  pending w !! r = Some c ->
  deregister c = FOff mc n cb ->
  invoke (FDeref r) w = (Ok tt, set_log (log w ++ [(zone w, Off mc n cb)]) w).
Proof. intros H Hd. now rewrite (invoke_FDeref r c w H), Hd. Qed.

(** Setting a flag that is set already changes nothing. *)
Lemma cancel_twice (r : CellRef) (c : Registration) (p : list Registration) :
  p !! r = Some c ->
  cancelRegistration c = true ->
  <[r := set_cancelRegistration true c]> p = p.
Proof.
  intros H Hc. apply list_insert_id.
  replace (set_cancelRegistration true c) with c; [exact H|].
  destruct c; simpl in *; now subst.
Qed.

Lemma set_pending_id (w : World) : set_pending (pending w) w = w.
Proof. now destruct w. Qed.

(** What a call of any function value does to the state: at most one
    flag is set, or at most one [off] is sent. *)
Lemma call_fn_frame (depth : nat) (f : Fn) (w : World) :
  let w' := snd (call_fn depth f w) in
  w' = w
  \/ (exists mc n cb, w' = set_log (log w ++ [(zone w, Off mc n cb)]) w)
  \/ (exists r c, pending w !! r = Some c
                  /\ w' = set_pending (<[r := set_cancelRegistration true c]> (pending w)) w).
Proof.
  revert f w. induction depth as [|d IH]; intros f w; simpl; [now left|].
  destruct f as [r| |r|mc n cb]; simpl.
  - destruct (pending w !! r) as [c|] eqn:Hc.
    + rewrite (update_cell_some _ _ _ _ Hc). right. right. eauto.
    + rewrite (update_cell_none _ _ _ Hc). now left.
  - now left.
  - unfold bind, read_cell. destruct (pending w !! r) as [c|] eqn:Hc; [apply IH | now left].
  - right. left. eauto.
Qed.

(** ** One action, case by case *)

Lemma supports_cases (this : HammerGesturesPlugin) (n : string) (w : World) :
  snd (supports this n w) = w
  \/ snd (supports this n w)
     = set_log (log w ++ [(zone w, Warn (not_loaded_message n))]) w.
Proof.
  unfold supports.
  destruct (negb (hasOwnProperty EVENT_NAMES (toLowerCase n)) && negb (isCustomEvent this n));
    [now left|].
  unfold bind, window_Hammer.
  destruct (negb (bool_decide (is_Some (Hammer w)))
            && negb (bool_decide (is_Some (loader this)))); [now right | now left].
Qed.

Lemma call_callback_some (cb : CallbackRef) (ev : EventObj) (w : World) (h : Handler) :
  callbacks w !! cb = Some h ->
  call_callback cb ev w = (Ok tt, set_log (log w ++ [(Guarded, HandlerCalled h ev)]) w).
Proof.
  intros H. unfold call_callback. rewrite H. now destruct w.
Qed.

Lemma call_callback_none (cb : CallbackRef) (ev : EventObj) (w : World) :
  callbacks w !! cb = None -> call_callback cb ev w = (Throw NoSuchClosure, w).
Proof. intros H. unfold call_callback. now rewrite H. Qed.

(** The function [step] and the relation [transition] agree. *)
Lemma step_transition (this : HammerGesturesPlugin) (a : Action) (w : World) :
  transition this w a (step this a w).
Proof.
  destruct a as [n|el n h|f|r o|hm|cb ev]; simpl.
  - destruct (supports_cases this n w) as [->| ->]; constructor.
  - destruct (Hammer w) as [lib|] eqn:HH.
    + destruct (constructs lib el (options (_config this))) eqn:Hk.
      * destruct (all_present (recognizers lib el (options (_config this)))
                    (settings (_config this))) eqn:Hall.
        -- assert (builds lib (_config this) el = true) as Hb
             by (unfold builds; now rewrite Hk, Hall).
           rewrite (addEventListener_bound _ _ _ _ _ lib HH Hb).
           now apply (tr_bind _ _ _ _ _ lib).
        -- rewrite (addEventListener_half_built _ _ _ _ _ lib HH Hk Hall).
           now apply (tr_half_built _ _ _ _ _ lib).
      * rewrite (addEventListener_refused _ _ _ _ _ lib HH Hk). constructor.
    + destruct (loader this) as [l|] eqn:HL.
      * rewrite (addEventListener_deferred _ _ _ _ _ l HH HL). now constructor.
      * rewrite (addEventListener_unavailable _ _ _ _ _ HH HL). constructor.
  - unfold invoke.
    destruct (call_fn_frame stack_depth f w) as [Hw|[[mc [n [cb Hw]]]|[r0 [c0 [Hc0 Hw]]]]];
      rewrite Hw; now constructor.
  - destruct (pending w !! r) as [c|] eqn:Hc;
      [|rewrite (settle_unknown _ _ _ _ Hc); constructor].
    destruct (reg_promise c) eqn:Hp;
      [|rewrite (settle_again _ _ _ _ Hc _ Hp); constructor].
    destruct o.
    + destruct (Hammer w) as [lib|] eqn:HH.
      * destruct (cancelRegistration c) eqn:Hcan.
        -- rewrite (settle_fulfilled_cancelled _ _ _ _ Hc Hp lib HH Hcan).
           exact (tr_settle_cancelled this w r c Hc Hp Hcan).
        -- destruct (constructs lib (reg_element c) (options (_config this))) eqn:Hk.
           ++ destruct (all_present (recognizers lib (reg_element c) (options (_config this)))
                          (settings (_config this))) eqn:Hall.
              ** assert (builds lib (_config this) (reg_element c) = true) as Hb
                   by (unfold builds; now rewrite Hk, Hall).
                 rewrite (settle_fulfilled_bound _ _ _ _ Hc Hp lib HH Hcan Hb).
                 now apply (tr_settle_bound _ _ _ _ lib).
              ** rewrite (settle_fulfilled_half_built _ _ _ _ Hc Hp lib HH Hcan Hk Hall).
                 now apply (tr_settle_half_built _ _ _ _ lib).
           ++ rewrite (settle_fulfilled_refused _ _ _ _ Hc Hp lib HH Hcan Hk).
              exact (tr_settle_failed this w r Fulfilled c _ Hc Hp).
      * rewrite (settle_fulfilled_absent _ _ _ _ Hc Hp HH).
        exact (tr_settle_failed this w r Fulfilled c _ Hc Hp).
    + rewrite (settle_rejected _ _ _ _ Hc Hp).
      exact (tr_settle_failed this w r Rejected c _ Hc Hp).
  - constructor.
  - destruct (callbacks w !! cb) as [h|] eqn:Hcb.
    + rewrite (call_callback_some _ _ _ _ Hcb). now constructor.
    + rewrite (call_callback_none _ _ _ Hcb). constructor.
Qed.

Lemma lookup_unique {A} (l : list A) (i : nat) (x y : A) :
  l !! i = Some x -> l !! i = Some y -> x = y.
Proof. intros H1 H2. rewrite H1 in H2. now inversion H2. Qed.

Lemma lookup_insert_cases (p : list Registration) (r r' : CellRef) (c c' x : Registration) :
  p !! r = Some c ->
  p !! r' = Some c' ->
  <[r' := x]> p !! r = Some (if decide (r = r') then x else c).
Proof.
  intros H H'. destruct (decide (r = r')) as [->|Hne].
  - eapply lookup_written, H'.
  - rewrite list_lookup_insert_ne by congruence. exact H.
Qed.

(** ** What one action can do to the cell of a deferred call *)

Lemma transition_cell (this : HammerGesturesPlugin) (a : Action) (w w' : World)
    (r : CellRef) (c : Registration) :
  transition this w a w' ->
  pending w !! r = Some c ->
  exists c', pending w' !! r = Some c'
             /\ (cell_touched c c'
                 \/ (exists o, a = ASettle r o) /\ reg_promise c = Outstanding
                    /\ cell_settled c c').
Proof.
  intros T Hc.
  assert (forall r0 c0 x o,
            pending w !! r0 = Some c0 -> reg_promise c0 = Outstanding ->
            cell_settled c0 x ->
            exists c', <[r0 := x]> (pending w) !! r = Some c'
               /\ (cell_touched c c'
                   \/ (exists o', ASettle r0 o = ASettle r o')
                      /\ reg_promise c = Outstanding /\ cell_settled c c')) as Hsettle.
  { intros r0 c0 x o Hc0 Hp0 Hx. rewrite (lookup_insert_cases _ _ _ _ _ _ Hc Hc0).
    destruct (decide (r = r0)) as [->|Hne].
    - assert (c0 = c) as -> by exact (lookup_unique _ _ _ _ Hc0 Hc).
      exists x. split; [reflexivity|]. right. eauto.
    - exists c. split; [reflexivity | left; constructor]. }
  destruct T as [a| n | el n h lib HH Hk | el n h l HH HL | f mc n cb | f r0 c0 Hc0
                 | r0 o c0 msg Hc0 Hp0 | r0 c0 Hc0 Hp0 Hcan | r0 c0 lib Hc0 Hp0 Hcan HH Hk
                 | hm | cb ev h Hcb
                 | el n h lib HH Hk Hall | r0 c0 lib Hc0 Hp0 Hcan HH Hk Hall]; simpl.
  1-3, 5, 10-12: exists c; split; [assumption | left; constructor].
  - exists c. split; [now apply lookup_app_l_Some | left; constructor].
  - rewrite (lookup_insert_cases _ _ _ _ _ _ Hc Hc0).
    destruct (decide (r = r0)) as [->|Hne].
    + assert (c0 = c) as -> by exact (lookup_unique _ _ _ _ Hc0 Hc).
      eexists. split; [reflexivity | left; constructor].
    + exists c. split; [reflexivity | left; constructor].
  - apply (Hsettle r0 c0 _ o Hc0 Hp0). constructor.
  - apply (Hsettle r0 c0 _ Fulfilled Hc0 Hp0). now constructor.
  - apply (Hsettle r0 c0 _ Fulfilled Hc0 Hp0). now constructor.
  - apply (Hsettle r0 c0 _ Fulfilled Hc0 Hp0). constructor.
Qed.

Lemma step_cell (this : HammerGesturesPlugin) (a : Action) (w : World)
    (r : CellRef) (c : Registration) :
  pending w !! r = Some c ->
  exists c', pending (step this a w) !! r = Some c'
             /\ (cell_touched c c'
                 \/ (exists o, a = ASettle r o) /\ reg_promise c = Outstanding
                    /\ cell_settled c c').
Proof. apply (transition_cell this), step_transition. Qed.

(** ** Runs and what they preserve *)

Lemma run_cons (this : HammerGesturesPlugin) (a : Action) (acts : list Action) (w : World) :
  run this (a :: acts) w = run this acts (step this a w).
Proof. reflexivity. Qed.

Lemma run_preserves (this : HammerGesturesPlugin) (allowed : Action -> Prop)
    (P : World -> Prop) :
  (forall a w, allowed a -> P w -> P (step this a w)) ->
  forall acts w, Forall allowed acts -> P w -> P (run this acts w).
Proof.
  intros Hstep acts. induction acts as [|a acts IH]; intros w Hall HP; [exact HP|].
  rewrite run_cons. inversion Hall; subst. apply IH; auto.
Qed.

Lemma run_preserves_all (this : HammerGesturesPlugin) (P : World -> Prop) :
  (forall a w, P w -> P (step this a w)) ->
  forall acts w, P w -> P (run this acts w).
Proof.
  intros Hstep acts w HP.
  apply (run_preserves this (fun _ => True) P); auto.
  apply Forall_forall. auto.
Qed.

Section Invariants.

Variable this : HammerGesturesPlugin.
Variable r : CellRef.

Lemma waiting_step (a : Action) (w : World) :
  not_settling r a -> waiting r w -> waiting r (step this a w).
Proof.
  intros Hns [c [Hc [Hd Hp]]].
  destruct (step_cell this a w r c Hc) as [c' [Hc' [Ht|[[o Ho] _]]]].
  - exists c'. split; [assumption|]. destruct Ht; simpl; auto.
  - exfalso. exact (Hns o Ho).
Qed.

Lemma cancelled_step (a : Action) (w : World) :
  cancelled r w -> cancelled r (step this a w).
Proof.
  intros [c [Hc [Hf Hd]]].
  destruct (step_cell this a w r c Hc) as [c' [Hc' [Ht|[_ [_ Hs]]]]];
    exists c'; (split; [assumption|]).
  - destruct Ht; simpl; auto.
  - destruct Hs; simpl; auto. congruence.
Qed.

Lemma failed_step (a : Action) (w : World) :
  failed r w -> failed r (step this a w).
Proof.
  intros [c [Hc [Hd Hp]]].
  destruct (step_cell this a w r c Hc) as [c' [Hc' [Ht|[_ [Ho _]]]]].
  - exists c'. split; [assumption|]. destruct Ht; simpl; auto.
  - congruence.
Qed.

Lemma bound_as_step (mc : Manager) (n : string) (cb : CallbackRef)
    (a : Action) (w : World) :
  bound_as r mc n cb w -> bound_as r mc n cb (step this a w).
Proof.
  intros [c [Hc [Hd Hp]]].
  destruct (step_cell this a w r c Hc) as [c' [Hc' [Ht|[_ [Ho _]]]]].
  - exists c'. split; [assumption|]. destruct Ht; simpl; auto.
  - congruence.
Qed.

(** Once cancelled, the settling of the promise, however it goes, logs
    at most a warning and builds nothing. *)
Lemma cancelled_settle (o : Settlement) (w : World) :
  cancelled r w ->
  let w' := settle this r o w in
  (log w' = log w \/ exists msg, log w' = log w ++ [(zone w, Warn msg)])
  /\ callbacks w' = callbacks w /\ managers w' = managers w.
Proof.
  intros [c [Hc [Hf Hd]]]. cbv zeta.
  destruct (reg_promise c) eqn:Hp; [|rewrite (settle_again _ _ _ _ Hc _ Hp); tauto].
  destruct o.
  - destruct (Hammer w) as [lib|] eqn:HH.
    + rewrite (settle_fulfilled_cancelled _ _ _ _ Hc Hp lib HH Hf). simpl. tauto.
    + rewrite (settle_fulfilled_absent _ _ _ _ Hc Hp HH). simpl. eauto.
  - rewrite (settle_rejected _ _ _ _ Hc Hp). simpl. eauto.
Qed.

(** Once cancelled, calling the handle again changes nothing. *)
Lemma cancelled_invoke (w : World) :
  cancelled r w -> invoke (FDeref r) w = (Ok tt, w).
Proof.
  intros [c [Hc [Hf [Hd|Hd]]]].
  - rewrite (invoke_handle_cancels _ _ _ Hc Hd).
    now rewrite (cancel_twice _ _ _ Hc Hf), set_pending_id.
  - apply (invoke_handle_noop _ _ _ Hc Hd).
Qed.

Lemma failed_invoke (w : World) :
  failed r w -> invoke (FDeref r) w = (Ok tt, w).
Proof. intros [c [Hc [Hd _]]]. apply (invoke_handle_noop _ _ _ Hc Hd). Qed.

Lemma failed_settle (o : Settlement) (w : World) :
  failed r w -> settle this r o w = w.
Proof. intros [c [Hc [_ Hp]]]. apply (settle_again _ _ _ _ Hc _ Hp). Qed.

Lemma bound_as_invoke (mc : Manager) (n : string) (cb : CallbackRef) (w : World) :
  bound_as r mc n cb w ->
  invoke (FDeref r) w = (Ok tt, set_log (log w ++ [(zone w, Off mc n cb)]) w).
Proof. intros [c [Hc [Hd _]]]. apply (invoke_handle_off _ _ _ _ _ _ Hc Hd). Qed.

(** Cancelling a waiting call. *)
Lemma waiting_invoke (w : World) :
  waiting r w ->
  fst (invoke (FDeref r) w) = Ok tt
  /\ cancelled r (snd (invoke (FDeref r) w))
  /\ log (snd (invoke (FDeref r) w)) = log w
  /\ callbacks (snd (invoke (FDeref r) w)) = callbacks w
  /\ managers (snd (invoke (FDeref r) w)) = managers w.
Proof.
  intros [c [Hc [Hd Hp]]]. rewrite (invoke_handle_cancels _ _ _ Hc Hd). simpl.
  repeat split. exists (set_cancelRegistration true c).
  split; [eapply lookup_written, Hc|]. simpl. auto.
Qed.

End Invariants.

Lemma deferred_waiting (l : LoaderFn) (element : Element) (eventName : string)
    (handler : Handler) (w : World) :
  waiting (length (pending w)) (deferred_world l element eventName handler w).
Proof.
  eexists. split; [|split].
  - simpl. rewrite lookup_app_r by reflexivity.
    rewrite Nat.sub_diag. reflexivity.
  - reflexivity.
  - reflexivity.
Qed.

Lemma calls_of_settle (this : HammerGesturesPlugin) (r : CellRef) (o : Settlement)
    (w : World) (l : list Obs) :
  log (settle this r o w) = log w ++ l ->
  calls_of this (ASettle r o) w = l.
Proof.
  intros H. unfold calls_of. simpl. rewrite H. apply drop_app_length.
Qed.

(** C1.  A call made with the engine absent and a loader configured is
    deferred: it calls the loader and nothing else.  If the function it
    returned is called while the loader's promise is outstanding, then,
    whatever happens afterwards, the settling of the promise (fulfilled or
    rejected, engine present or not) makes no call on the engine, builds
    no instance and creates no callback, and calling the returned function
    again does nothing at all: neither [on] nor [off] is ever called for
    this call. *)
Theorem cancel_before_settle_never_binds
    (this : HammerGesturesPlugin) (l : LoaderFn) (element : Element)
    (eventName : string) (handler : Handler) (w : World)
    (before after : list Action) :
  Hammer w = None ->
  loader this = Some l ->
  let r := length (pending w) in
  Forall (not_settling r) before ->
  let w1 := snd (addEventListener this element eventName handler w) in
  let w2 := run this before w1 in
  let w3 := snd (invoke (FDeref r) w2) in
  let w4 := run this after w3 in
  fst (addEventListener this element eventName handler w) = Ok (FDeref r)
  /\ log w1 = log w ++ [(zone w, LoaderCalled l)]
  /\ fst (invoke (FDeref r) w2) = Ok tt
  /\ log w3 = log w2 /\ callbacks w3 = callbacks w2 /\ managers w3 = managers w2
  /\ (forall o,
        Forall (fun c => is_engine_call c = false) (calls_of this (ASettle r o) w4)
        /\ callbacks (settle this r o w4) = callbacks w4
        /\ managers (settle this r o w4) = managers w4)
  /\ invoke (FDeref r) w4 = (Ok tt, w4).
Proof.
  intros HH HL r Hbefore w1 w2 w3 w4.
  subst w1 w2 w3 w4 r.
  rewrite (addEventListener_deferred this element eventName handler w l HH HL).
  simpl fst. simpl snd.
  set (r := length (pending w)).
  set (w1 := deferred_world l element eventName handler w).
  assert (waiting r (run this before w1)) as Hwait.
  { apply (run_preserves this (not_settling r) (waiting r)); [|assumption|].
    - intros a w0. apply waiting_step.
    - apply deferred_waiting. }
  destruct (waiting_invoke r _ Hwait) as [Hok [Hcan [Hlog [Hcb Hmg]]]].
  set (w3 := snd (invoke (FDeref r) (run this before w1))) in *.
  assert (cancelled r (run this after w3)) as Hafter.
  { apply (run_preserves_all this (cancelled r)); [|assumption].
    intros a w0. apply cancelled_step. }
  split; [reflexivity|]. split; [reflexivity|].
  split; [assumption|]. split; [assumption|].
  split; [assumption|]. split; [assumption|]. split.
  - intros o. destruct (cancelled_settle this r o _ Hafter) as [Hl [Hc Hm]].
    split; [|split; assumption].
    destruct Hl as [Hl|[msg Hl]].
    + rewrite (calls_of_settle this r o _ []); [constructor|].
      now rewrite app_nil_r.
    + rewrite (calls_of_settle this r o _ _ Hl). repeat constructor.
  - apply cancelled_invoke, Hafter.
Qed.

(** ** Wrapped callbacks are never forgotten *)

Lemma step_callbacks (this : HammerGesturesPlugin) (a : Action) (w : World) :
  exists more, callbacks (step this a w) = callbacks w ++ more.
Proof.
  destruct (step_transition this a w); simpl;
    solve [ exists []; now rewrite app_nil_r | eauto ].
Qed.

Lemma run_callbacks (this : HammerGesturesPlugin) (acts : list Action) (w : World)
    (cb : CallbackRef) (h : Handler) :
  callbacks w !! cb = Some h -> callbacks (run this acts w) !! cb = Some h.
Proof.
  apply (run_preserves_all this (fun w => callbacks w !! cb = Some h)).
  intros a w0 H. destruct (step_callbacks this a w0) as [more ->].
  now apply lookup_app_l_Some.
Qed.

(** ** Reaching the bound state *)

Lemma no_on_in_build (z : Zone) (cfg : HammerGestureConfig) (mc : Manager) (element : Element) :
  List.filter is_on (map (pair z) (build_calls cfg mc element)) = [].
Proof.
  unfold build_calls. simpl.
  induction (for_in_keys (overrides cfg)) as [|k ks IH]; simpl; [reflexivity|].
  exact IH.
Qed.

Lemma captures_step (this : HammerGesturesPlugin) (r : CellRef) (el : Element)
    (n : string) (h : Handler) (a : Action) (w : World) :
  captures r el n h w -> captures r el n h (step this a w).
Proof.
  intros [c [Hc [He [Hn Hh]]]].
  destruct (step_cell this a w r c Hc) as [c' [Hc' [Ht|[_ [_ Hs]]]]];
    exists c'; (split; [assumption|]).
  - destruct Ht; simpl; auto.
  - destruct Hs; simpl; auto.
Qed.

Lemma deferred_captures (this : HammerGesturesPlugin) (l : LoaderFn) (element : Element)
    (eventName : string) (handler : Handler) (w : World) (acts : list Action) :
  captures (length (pending w)) element (toLowerCase eventName) handler
    (run this acts (deferred_world l element eventName handler w)).
Proof.
  apply (run_preserves_all this
           (captures (length (pending w)) element (toLowerCase eventName) handler)).
  - intros a w0. apply captures_step.
  - eexists. split.
    + simpl. rewrite lookup_app_r by reflexivity.
      rewrite Nat.sub_diag. reflexivity.
    + simpl. auto.
Qed.

Lemma only_build_in_build (z : Zone) (cfg : HammerGestureConfig) (mc : Manager)
    (element : Element) :
  List.filter (fun c => is_engine_call c && negb (is_build c))
    (map (pair z) (build_calls cfg mc element)) = [].
Proof.
  unfold build_calls. simpl.
  induction (for_in_keys (overrides cfg)) as [|k ks IH]; simpl; [reflexivity|].
  exact IH.
Qed.

Lemma binds_step (this : HammerGesturesPlugin) (element : Element)
    (eventName : string) (handler : Handler) (w0 : World) (f : Fn)
    (a : Action) (w : World) :
  binds this element eventName handler w0 f a w ->
  let mc := managers w in
  let cb := length (callbacks w) in
  let n := toLowerCase eventName in
  log (step this a w)
  = log w ++ map (pair OutsideAngular) (build_calls (_config this) mc element ++ [On mc n cb])
  /\ callbacks (step this a w) = callbacks w ++ [handler]
  /\ managers (step this a w) = S (managers w)
  /\ zone (step this a w) = zone w
  /\ (f = FOff mc n cb \/ exists r, f = FDeref r /\ bound_as r mc n cb (step this a w)).
Proof.
  intros Hb.
  destruct Hb as [lib HH Hk Hf | l acts w c lib HH0 HL Hf Hw Hc Hp Hcan HH Hk Hall]; simpl.
  - pose proof (returns_builds _ _ _ _ _ lib f HH Hf) as Hb.
    rewrite (addEventListener_bound _ _ _ _ _ lib HH Hb) in *. simpl in *.
    repeat split. left. now inversion Hf.
  - rewrite (addEventListener_deferred _ _ _ _ _ l HH0 HL) in *. simpl in *.
    destruct (deferred_captures this l element eventName handler w0 acts)
      as [c' [Hc' [He [Hn Hh]]]].
    rewrite <- Hw in Hc'.
    assert (c' = c) as -> by exact (lookup_unique _ _ _ _ Hc' Hc).
    assert (builds lib (_config this) (reg_element c) = true) as Hk'
      by (rewrite He; now apply builds_of_parts).
    rewrite (settle_fulfilled_bound _ _ _ _ Hc Hp lib HH Hcan Hk'). simpl.
    rewrite He, Hn, Hh, toLowerCase_idem.
    repeat split. right. exists (length (pending w0)).
    split; [now inversion Hf|].
    eexists. split; [eapply lookup_written, Hc|]. simpl. auto.
Qed.

Lemma binds_invoke (this : HammerGesturesPlugin) (f : Fn) (mc : Manager) (n : string)
    (cb : CallbackRef) (w : World) (after : list Action) :
  (f = FOff mc n cb \/ exists r, f = FDeref r /\ bound_as r mc n cb w) ->
  let w2 := run this after w in
  invoke f w2 = (Ok tt, set_log (log w2 ++ [(zone w2, Off mc n cb)]) w2).
Proof.
  intros [->|[r [-> Hb]]] w2; [apply invoke_FOff|].
  apply bound_as_invoke. subst w2.
  apply (run_preserves_all this (bound_as r mc n cb)); [|assumption].
  intros a w0. apply bound_as_step.
Qed.

(** C8.  When a call gets bound, at once or when the loader is done, one
    wrapped callback is created for it and [on] is called once, with that
    callback and the lowercased name, on the instance just built; and
    whenever the function returned to the caller is called afterwards, it
    calls [off] on the same instance with the same name and the same
    callback. *)
Theorem off_gets_the_callback_given_to_on
    (this : HammerGesturesPlugin) (element : Element) (eventName : string)
    (handler : Handler) (w0 : World) (f : Fn) (a : Action) (w : World)
    (after : list Action) :
  binds this element eventName handler w0 f a w ->
  let mc := managers w in
  let cb := length (callbacks w) in
  let n := toLowerCase eventName in
  let w2 := run this after (step this a w) in
  callbacks (step this a w) = callbacks w ++ [handler]
  /\ List.filter is_on (calls_of this a w) = [(OutsideAngular, On mc n cb)]
  /\ invoke f w2 = (Ok tt, set_log (log w2 ++ [(zone w2, Off mc n cb)]) w2).
Proof.
  intros Hb mc cb n w2.
  destruct (binds_step this element eventName handler w0 f a w Hb)
    as [Hlog [Hcb [_ [_ Hf]]]].
  split; [exact Hcb|]. split.
  - unfold calls_of. rewrite Hlog, drop_app_length, map_app, List.filter_app.
    now rewrite no_on_in_build.
  - apply (binds_invoke this f mc n cb (step this a w) after Hf).
Qed.

(** C9.  When a call gets bound, the callback given to [on] is registered
    under the lowercased name, and from then on every delivery of an event
    object to that callback makes exactly one call: the caller's handler,
    applied to that same event object, inside [zone.runGuarded]. *)
Theorem bound_callback_runs_handler_once
    (this : HammerGesturesPlugin) (element : Element) (eventName : string)
    (handler : Handler) (w0 : World) (f : Fn) (a : Action) (w : World)
    (after : list Action) (eventObj : EventObj) :
  binds this element eventName handler w0 f a w ->
  let cb := length (callbacks w) in
  let w2 := run this after (step this a w) in
  In (OutsideAngular, On (managers w) (toLowerCase eventName) cb) (calls_of this a w)
  /\ call_callback cb eventObj w2
     = (Ok tt, set_log (log w2 ++ [(Guarded, HandlerCalled handler eventObj)]) w2)
  /\ calls_of this (ADeliver cb eventObj) w2 = [(Guarded, HandlerCalled handler eventObj)].
Proof.
  intros Hb cb w2.
  destruct (binds_step this element eventName handler w0 f a w Hb)
    as [Hlog [Hcb _]].
  assert (callbacks w2 !! cb = Some handler) as Hlook.
  { apply run_callbacks. rewrite Hcb. rewrite lookup_app_r by reflexivity.
    unfold cb. now rewrite Nat.sub_diag. }
  split; [|split].
  - unfold calls_of. rewrite Hlog, drop_app_length, map_app.
    apply in_or_app. right. now left.
  - apply call_callback_some, Hlook.
  - unfold calls_of. simpl. rewrite (call_callback_some _ _ _ _ Hlook). simpl.
    apply drop_app_length.
Qed.

(** ** The states a deferred call goes through *)

Lemma known_step (this : HammerGesturesPlugin) (r : CellRef) (a : Action) (w : World) :
  known r w -> known r (step this a w).
Proof.
  intros [Hw|[Hc|[Hf|[mc [n [cb Hb]]]]]].
  - destruct Hw as [c [Hc [Hd Hp]]].
    destruct (step_cell this a w r c Hc) as [c' [Hc' [Ht|[_ [_ Hs]]]]].
    + left. exists c'. split; [assumption|]. destruct Ht; simpl; auto.
    + destruct Hs as [|Hcan|mc n cb Hcan].
      * right. right. left. exists (settled_with FNoop c). simpl. auto.
      * right. left. eexists. split; [exact Hc'|]. simpl. auto.
      * right. right. right. exists mc, n, cb. eexists. split; [exact Hc'|]. simpl. auto.
  - right. left. now apply cancelled_step.
  - right. right. left. now apply failed_step.
  - right. right. right. exists mc, n, cb. now apply bound_as_step.
Qed.

(** C2, amended.  The function returned by [addEventListener]
    never throws, in any state and however often it is called.  While the
    call is deferred, cancelled or failed, calling it makes no call to any
    collaborator and a second call changes nothing.  Once the call is
    bound, every call of it calls the engine's [off] again, with the same
    name and callback as before: the plugin keeps no record that the
    listener was removed. *)
Theorem deregister_again
    (this : HammerGesturesPlugin) (element : Element) (eventName : string)
    (handler : Handler) (w : World) (f : Fn) (w1 : World) (acts : list Action) :
  addEventListener this element eventName handler w = (Ok f, w1) ->
  let w2 := run this acts w1 in
  let w3 := snd (invoke f w2) in
  fst (invoke f w2) = Ok tt
  /\ fst (invoke f w3) = Ok tt
  /\ ((exists r, f = FDeref r /\ (waiting r w2 \/ cancelled r w2 \/ failed r w2))
        /\ log w3 = log w2 /\ invoke f w3 = (Ok tt, w3)
      \/ (exists mc n cb,
            (f = FOff mc n cb \/ exists r, f = FDeref r /\ bound_as r mc n cb w2)
            /\ w3 = set_log (log w2 ++ [(zone w2, Off mc n cb)]) w2
            /\ snd (invoke f w3) = set_log (log w3 ++ [(zone w3, Off mc n cb)]) w3)).
Proof.
  intros Hadd w2 w3.
  assert ((exists mc n cb, f = FOff mc n cb)
          \/ exists r, f = FDeref r /\ known r w2) as Hf.
  { destruct (Hammer w) as [lib|] eqn:HH.
    - pose proof (returns_builds _ _ _ _ _ lib f HH (f_equal fst Hadd)) as Hk.
      rewrite (addEventListener_bound _ _ _ _ _ lib HH Hk) in Hadd.
      inversion Hadd. left. eauto.
    - destruct (loader this) as [l|] eqn:HL.
      + rewrite (addEventListener_deferred _ _ _ _ _ l HH HL) in Hadd.
        inversion Hadd as [[Hf Hw1]]. right. eexists. split; [reflexivity|].
        unfold w2. rewrite <- Hw1.
        apply (run_preserves_all this (known (length (pending w)))).
        * intros a w0. apply known_step.
        * left. apply deferred_waiting.
      + rewrite (addEventListener_unavailable _ _ _ _ _ HH HL) in Hadd. discriminate. }
  destruct Hf as [[mc [n [cb ->]]]|[r [-> [Hw|[Hc|[Hfl|[mc [n [cb Hb]]]]]]]]].
  - subst w3. rewrite !invoke_FOff. simpl.
    split; [reflexivity|]. split; [reflexivity|]. right. exists mc, n, cb. auto.
  - destruct (waiting_invoke r w2 Hw) as [Hok [Hcan [Hlog _]]].
    pose proof (cancelled_invoke r w3 Hcan) as Hagain.
    split; [assumption|]. split; [now rewrite Hagain|]. left.
    split; [exists r; auto|]. split; assumption.
  - pose proof (cancelled_invoke r w2 Hc) as Hi.
    assert (w3 = w2) as Hw3 by (subst w3; now rewrite Hi).
    rewrite Hw3, Hi. split; [reflexivity|]. split; [reflexivity|]. left.
    split; [exists r; auto|]. auto.
  - pose proof (failed_invoke r w2 Hfl) as Hi.
    assert (w3 = w2) as Hw3 by (subst w3; now rewrite Hi).
    rewrite Hw3, Hi. split; [reflexivity|]. split; [reflexivity|]. left.
    split; [exists r; auto|]. auto.
  - pose proof (bound_as_invoke r mc n cb w2 Hb) as Hi.
    assert (w3 = set_log (log w2 ++ [(zone w2, Off mc n cb)]) w2) as Hw3
      by (subst w3; now rewrite Hi).
    assert (bound_as r mc n cb w3) as Hb3 by (rewrite Hw3; exact Hb).
    pose proof (bound_as_invoke r mc n cb w3 Hb3) as Hi3.
    rewrite Hi, Hi3. split; [reflexivity|]. split; [reflexivity|].
    right. exists mc, n, cb.
    split; [right; exists r; auto|]. split; [exact Hw3 | reflexivity].
Qed.

(** ** Who can still call a handler *)

Lemma lookup_insert_inv (p : list Registration) (r0 r : CellRef) (x c : Registration) :
  <[r0 := x]> p !! r = Some c -> r = r0 /\ c = x \/ r <> r0 /\ p !! r = Some c.
Proof.
  intros H. destruct (decide (r0 = r)) as [->|Hne].
  - left. assert (r < length p) as Hlt.
    { apply lookup_lt_Some in H. now rewrite length_insert in H. }
    rewrite list_lookup_insert_eq in H by assumption. now inversion H.
  - right. rewrite list_lookup_insert_ne in H by assumption. auto.
Qed.

Lemma lookup_snoc_inv (p : list Registration) (x c : Registration) (r : CellRef) :
  (p ++ [x]) !! r = Some c -> c = x \/ p !! r = Some c.
Proof.
  intros H. apply lookup_app_Some in H. destruct H as [H|[_ H]]; [now right|].
  left. apply list_elem_of_lookup_2 in H. apply list_elem_of_In in H.
  destruct H as [H|[]]. now symmetry.
Qed.

Lemma bound_world_log (this : HammerGesturesPlugin) (el : Element) (n : string)
    (h : Handler) (w : World) :
  log (bound_world this el n h w)
  = log w ++ map (pair OutsideAngular)
               (build_calls (_config this) (managers w) el
                ++ [On (managers w) (toLowerCase n) (length (callbacks w))]).
Proof. reflexivity. Qed.

Lemma log_set_pending (p : list Registration) (w : World) :
  log (set_pending p w) = log w.
Proof. reflexivity. Qed.

Lemma no_handler_call_in_binding (z : Zone) (h : Handler) (ev : EventObj)
    (cfg : HammerGestureConfig) (mc : Manager) (el : Element) (n : string)
    (cb : CallbackRef) :
  ~ In (z, HandlerCalled h ev)
       (map (pair OutsideAngular) (build_calls cfg mc el ++ [On mc n cb])).
Proof.
  intros H. apply in_map_iff in H. destruct H as [x [Hx Hin]].
  inversion Hx; subst. apply in_app_or in Hin.
  destruct Hin as [Hin|[Hin|[]]]; [|discriminate].
  unfold build_calls in Hin.
  destruct Hin as [Hin|[Hin|[Hin|Hin]]]; try discriminate.
  apply in_map_iff in Hin. destruct Hin as [k [Hk _]]. discriminate.
Qed.

Lemma built_calls_kinds (cfg : HammerGestureConfig) (has : string -> bool)
    (mc : Manager) (el : Element) (c : Call) :
  In c (built_calls cfg has mc el) ->
  c = HammerNew mc el (options cfg) \/ exists k o, c = RecognizerSet mc k o.
Proof.
  intros [H|H]; [now left|right].
  apply in_map_iff in H. destruct H as [x [Hx _]]. unfold set_call in Hx. eauto.
Qed.

Lemma no_handler_call_in_building (z : Zone) (h : Handler) (ev : EventObj)
    (cfg : HammerGestureConfig) (has : string -> bool) (mc : Manager) (el : Element) :
  ~ In (z, HandlerCalled h ev) (map (pair OutsideAngular) (built_calls cfg has mc el)).
Proof.
  intros H. apply in_map_iff in H. destruct H as [x [Hx Hin]].
  inversion Hx; subst.
  apply built_calls_kinds in Hin. destruct Hin as [Hin|[k [o Hin]]]; discriminate.
Qed.

Lemma half_built_world_log (cfg : HammerGestureConfig) (has : string -> bool)
    (el : Element) (w : World) :
  log (half_built_world cfg has el w)
  = log w ++ map (pair OutsideAngular) (built_calls cfg has (managers w) el).
Proof. reflexivity. Qed.

Lemma transition_log (this : HammerGesturesPlugin) (a : Action) (w w' : World) :
  transition this w a w' ->
  exists calls, log w' = log w ++ calls
                /\ forall z h ev, In (z, HandlerCalled h ev) calls ->
                                  exists cb, callbacks w !! cb = Some h.
Proof.
  intros T.
  assert (forall (msg : string) z h ev,
            In (z, HandlerCalled h ev) [(zone w, Warn msg)] ->
            exists cb, callbacks w !! cb = Some h) as Hwarn
    by (intros msg z h ev [H|[]]; discriminate).
  destruct T as [a| n | el n h lib HH Hk | el n h l HH HL | f mc n cb | f r0 c0 Hc0
                 | r0 o c0 msg Hc0 Hp0 | r0 c0 Hc0 Hp0 Hcan | r0 c0 lib Hc0 Hp0 Hcan HH Hk
                 | hm | cb ev h Hcb
                 | el n h lib HH Hk Hall | r0 c0 lib Hc0 Hp0 Hcan HH Hk Hall].
  12: { eexists. split; [apply half_built_world_log|].
        intros z h0 ev H. now apply no_handler_call_in_building in H. }
  12: { eexists. split; [reflexivity|].
        intros z h0 ev H. cbn [log] in H. apply in_app_or in H. destruct H as [H|H].
        - now apply no_handler_call_in_building in H.
        - exact (Hwarn _ z h0 ev H). }
  - exists []. split; [now rewrite app_nil_r | intros z h ev []].
  - eexists. split; [reflexivity | apply Hwarn].
  - eexists. split; [apply bound_world_log|].
    intros z h0 ev H. now apply no_handler_call_in_binding in H.
  - eexists. split; [reflexivity|]. intros z h0 ev [H|[]]. discriminate.
  - eexists. split; [reflexivity|]. intros z h0 ev [H|[]]. discriminate.
  - exists []. split; [simpl; now rewrite app_nil_r | intros z h ev []].
  - eexists. split; [reflexivity | apply Hwarn].
  - exists []. split; [simpl; now rewrite app_nil_r | intros z h ev []].
  - eexists. split; [rewrite log_set_pending; apply bound_world_log|].
    intros z h0 ev H. now apply no_handler_call_in_binding in H.
  - exists []. split; [simpl; now rewrite app_nil_r | intros z h ev []].
  - eexists. split; [reflexivity|]. intros z h0 ev0 [H|[]].
    inversion H; subst. eauto.
Qed.

Lemma step_log (this : HammerGesturesPlugin) (a : Action) (w : World) :
  log (step this a w) = log w ++ calls_of this a w.
Proof.
  destruct (transition_log this a w _ (step_transition this a w)) as [calls [H _]].
  unfold calls_of. rewrite H at 2. now rewrite drop_app_length.
Qed.

Lemma transition_unreachable (this : HammerGesturesPlugin) (h : Handler)
    (a : Action) (w w' : World) :
  transition this w a w' ->
  not_adding h a ->
  ~ reachable h w ->
  ~ reachable h w'.
Proof.
  intros T Hna Hun.
  assert (~ In h (callbacks w)) as Hnone by (intros H; apply Hun; now left).
  assert (forall r c, pending w !! r = Some c -> reg_handler c = h ->
                      reg_promise c = Outstanding -> False) as Hpd
    by (intros r c H1 H2 H3; apply Hun; right; eauto).
  assert (forall r0 x r c, <[r0 := x]> (pending w) !! r = Some c ->
            reg_handler c = h -> reg_promise c = Outstanding ->
            (reg_promise x = Settled
             \/ exists c0, pending w !! r0 = Some c0 /\ reg_handler x = reg_handler c0
                           /\ reg_promise x = reg_promise c0) ->
            False) as Hins.
  { intros r0 x r c H1 H2 H3 Hx. apply lookup_insert_inv in H1.
    destruct H1 as [[_ ->]|[_ H1]]; [|eauto].
    destruct Hx as [Hx|[c0 [Hc0 [Hh Hp]]]]; [congruence|].
    apply (Hpd r0 c0 Hc0); congruence. }
  destruct T as [a| n | el n h' lib HH Hk | el n h' l HH HL | f mc n cb | f r0 c0 Hc0
                 | r0 o c0 msg Hc0 Hp0 | r0 c0 Hc0 Hp0 Hcan | r0 c0 lib Hc0 Hp0 Hcan HH Hk
                 | hm | cb ev h' Hlook
                 | el n h' lib HH Hk Hall | r0 c0 lib Hc0 Hp0 Hcan HH Hk Hall];
    [exact Hun | intros [H|[r [c [H1 [H2 H3]]]]]; simpl in * ..].
  - auto.
  - eauto.
  - apply in_app_or in H. destruct H as [H|[H|[]]]; [auto|].
    subst h'. exact (Hna el n eq_refl).
  - eauto.
  - auto.
  - apply lookup_snoc_inv in H1. destruct H1 as [->|H1]; [|eauto].
    simpl in H2. subst h'. exact (Hna el n eq_refl).
  - auto.
  - eauto.
  - auto.
  - apply (Hins _ _ _ _ H1 H2 H3). right. exists c0. auto.
  - auto.
  - apply (Hins _ _ _ _ H1 H2 H3). now left.
  - auto.
  - apply (Hins _ _ _ _ H1 H2 H3). now left.
  - apply in_app_or in H. destruct H as [H|[H|[]]]; [auto|]. eauto.
  - apply (Hins _ _ _ _ H1 H2 H3). now left.
  - auto.
  - eauto.
  - auto.
  - eauto.
  - auto.
  - eauto.
  - auto.
  - apply (Hins _ _ _ _ H1 H2 H3). now left.
Qed.

Lemma unreachable_step (this : HammerGesturesPlugin) (h : Handler) (a : Action) (w : World) :
  not_adding h a ->
  ~ reachable h w ->
  ~ reachable h (step this a w)
  /\ forall z ev, ~ In (z, HandlerCalled h ev) (calls_of this a w).
Proof.
  intros Hna Hun. pose proof (step_transition this a w) as T. split.
  - exact (transition_unreachable this h a w _ T Hna Hun).
  - intros z ev Hin.
    destruct (transition_log this a w _ T) as [calls [Hlog Hcalls]].
    unfold calls_of in Hin. rewrite Hlog, drop_app_length in Hin.
    destruct (Hcalls z h ev Hin) as [cb Hcb].
    apply Hun. left. apply list_elem_of_In. eapply list_elem_of_lookup_2, Hcb.
Qed.

Lemma unreachable_run (this : HammerGesturesPlugin) (h : Handler)
    (acts : list Action) (w : World) :
  Forall (not_adding h) acts ->
  ~ reachable h w ->
  forall z ev, In (z, HandlerCalled h ev) (log (run this acts w)) ->
               In (z, HandlerCalled h ev) (log w).
Proof.
  revert w. induction acts as [|a acts IH]; intros w Hall Hun z ev Hin; [exact Hin|].
  inversion Hall as [|? ? Ha Hrest]; subst.
  destruct (unreachable_step this h a w Ha Hun) as [Hun' Hnone].
  rewrite run_cons in Hin. apply (IH _ Hrest Hun') in Hin.
  rewrite step_log in Hin. apply in_app_or in Hin.
  destruct Hin as [Hin|Hin]; [exact Hin|]. exfalso. exact (Hnone z ev Hin).
Qed.

(** C7.  When the loader's promise of a deferred call is rejected, or is
    fulfilled while the engine is still absent, one warning is logged and
    nothing else is called; nothing is built and no callback is created;
    only the cell of this call changes, every other call's cell is as it
    was.  From then on, whatever else happens, calling the function that
    was returned changes nothing and does not throw, the promise settling
    again changes nothing, and, unless the same handler is handed to the
    plugin by another call, the handler is never called. *)
Theorem failed_load_leaves_a_noop
    (this : HammerGesturesPlugin) (r : CellRef) (c : Registration) (w : World)
    (o : Settlement) (after : list Action) :
  pending w !! r = Some c ->
  reg_promise c = Outstanding ->
  (o = Rejected \/ o = Fulfilled /\ Hammer w = None) ->
  let w1 := settle this r o w in
  let w2 := run this after w1 in
  calls_of this (ASettle r o) w
  = [(zone w, Warn match o with
                   | Rejected => loader_failed_message (reg_eventName c)
                   | Fulfilled => loader_absent_message
                   end)]
  /\ w1 = mkWorld (Hammer w) (zone w) (log w1) (managers w) (callbacks w)
                  (<[r := settled_with FNoop c]> (pending w))
  /\ (forall r', r' <> r -> pending w1 !! r' = pending w !! r')
  /\ invoke (FDeref r) w2 = (Ok tt, w2)
  /\ (forall o', settle this r o' w2 = w2)
  /\ (sole_holder r (reg_handler c) w ->
      Forall (not_adding (reg_handler c)) after ->
      forall z ev, In (z, HandlerCalled (reg_handler c) ev) (log w2) ->
                   In (z, HandlerCalled (reg_handler c) ev) (log w)).
Proof.
  intros Hc Hp Ho w1 w2.
  set (msg := match o with
              | Rejected => loader_failed_message (reg_eventName c)
              | Fulfilled => loader_absent_message
              end).
  assert (w1 = mkWorld (Hammer w) (zone w) (log w ++ [(zone w, Warn msg)])
                 (managers w) (callbacks w)
                 (<[r := settled_with FNoop c]> (pending w))) as Hw1.
  { subst w1 msg. destruct Ho as [->|[-> HH]].
    - now rewrite (settle_rejected _ _ _ _ Hc Hp).
    - now rewrite (settle_fulfilled_absent _ _ _ _ Hc Hp HH). }
  assert (failed r w1) as Hf1.
  { rewrite Hw1. exists (settled_with FNoop c).
    split; [eapply lookup_written, Hc|]. simpl. auto. }
  assert (failed r w2) as Hf2.
  { apply (run_preserves_all this (failed r)); [|assumption].
    intros a w0. apply failed_step. }
  split; [|split; [|split; [|split; [|split]]]].
  - unfold calls_of. simpl. fold w1. rewrite Hw1. simpl.
    apply drop_app_length.
  - rewrite Hw1 at 1. simpl. now rewrite Hw1.
  - intros r' Hne. rewrite Hw1. simpl. apply list_lookup_insert_ne. congruence.
  - apply failed_invoke, Hf2.
  - intros o'. apply (failed_settle this r o' w2 Hf2).
  - intros [Hcb Hsole] Hna z ev Hin.
    assert (~ reachable (reg_handler c) w1) as Hun.
    { rewrite Hw1. intros [H|[r' [c' [H1 [H2 H3]]]]]; simpl in *; [auto|].
      apply lookup_insert_inv in H1.
      destruct H1 as [[_ ->]|[Hne H1]]; [discriminate|].
      apply Hne. eauto. }
    pose proof (unreachable_run this (reg_handler c) after w1 Hna Hun z ev Hin) as H.
    rewrite Hw1 in H. simpl in H. apply in_app_or in H.
    destruct H as [H|[H|[]]]; [exact H | discriminate].
Qed.

(** ** The name a listener is bound under *)

Lemma supports_recognized (this : HammerGesturesPlugin) (n : string) (w : World) :
  recognized this n ->
  is_Some (Hammer w) \/ is_Some (loader this) ->
  supports this n w = (Ok true, w).
Proof.
  intros Hr Hs. apply first_test_recognized in Hr. unfold supports. rewrite Hr.
  unfold bind, window_Hammer.
  destruct Hs as [[lib ->]|[l ->]]; [reflexivity|].
  now destruct (Hammer w).
Qed.

Lemma supports_unrecognized (this : HammerGesturesPlugin) (n : string) (w : World) :
  ~ recognized this n -> supports this n w = (Ok false, w).
Proof.
  intros Hn. unfold supports.
  destruct (negb (hasOwnProperty EVENT_NAMES (toLowerCase n))
            && negb (isCustomEvent this n)) eqn:Htest; [reflexivity|].
  exfalso. apply Hn. now apply first_test_recognized.
Qed.

(** C10.  Whichever way a call gets bound, the name given to [on], and
    later to [off], is the lowercase form of the name the caller passed: a
    deferred call stores the lowercased name and binds under it when the
    loader is done.  The name is lowercased also when [supports] accepted
    it only as a custom event name, compared as written: for a configured
    name that lowercasing changes, the listener is bound under a name that
    differs from the configured one, and that [supports] itself does not
    accept unless it is a fixed name or is configured too. *)
Theorem listener_name_is_lowercased :
  (forall this element eventName handler w0 f a w after,
     binds this element eventName handler w0 f a w ->
     let w2 := run this after (step this a w) in
     exists mc cb,
       List.filter (fun c => is_engine_call c && negb (is_build c)) (calls_of this a w)
       = [(OutsideAngular, On mc (toLowerCase eventName) cb)]
       /\ calls_of this (AInvoke f) w2 = [(zone w2, Off mc (toLowerCase eventName) cb)])
  /\ (forall this l element eventName handler w acts,
        Hammer w = None ->
        loader this = Some l ->
        captures (length (pending w)) element (toLowerCase eventName) handler
          (run this acts (snd (addEventListener this element eventName handler w))))
  /\ (forall this element eventName handler w lib,
        In eventName (events (_config this)) ->
        toLowerCase eventName <> eventName ->
        Hammer w = Some lib ->
        builds lib (_config this) element = true ->
        let mc := managers w in
        let cb := length (callbacks w) in
        fst (supports this eventName w) = Ok true
        /\ fst (addEventListener this element eventName handler w)
           = Ok (FOff mc (toLowerCase eventName) cb)
        /\ List.filter is_on (calls_of this (AAddEventListener element eventName handler) w)
           = [(OutsideAngular, On mc (toLowerCase eventName) cb)]
        /\ ~ In (OutsideAngular, On mc eventName cb)
               (calls_of this (AAddEventListener element eventName handler) w)
        /\ (~ In (toLowerCase eventName) (for_in_keys EVENT_NAMES) ->
            ~ In (toLowerCase eventName) (events (_config this)) ->
            fst (supports this (toLowerCase eventName) w) = Ok false)).
Proof.
  split; [|split].
  - intros this element eventName handler w0 f a w after Hb w2.
    destruct (binds_step this element eventName handler w0 f a w Hb)
      as [Hlog [_ [_ [_ Hf]]]].
    exists (managers w), (length (callbacks w)). split.
    + unfold calls_of. rewrite Hlog, drop_app_length, map_app, List.filter_app.
      now rewrite only_build_in_build.
    + pose proof (binds_invoke this f _ _ _ (step this a w) after Hf) as Hi.
      unfold calls_of. simpl. fold w2. cbv zeta in Hi. fold w2 in Hi.
      rewrite Hi. simpl. apply drop_app_length.
  - intros this l element eventName handler w acts HH HL.
    rewrite (addEventListener_deferred _ _ _ _ _ l HH HL). simpl.
    apply deferred_captures.
  - intros this element eventName handler w lib Hin Hne HH Hb mc cb.
    assert (List.filter is_on (calls_of this (AAddEventListener element eventName handler) w)
            = [(OutsideAngular, On mc (toLowerCase eventName) cb)]) as Hon.
    { unfold calls_of. simpl.
      rewrite (addEventListener_bound _ _ _ _ _ lib HH Hb). cbn [snd].
      rewrite bound_world_log, drop_app_length, map_app, List.filter_app.
      now rewrite no_on_in_build. }
    split; [|split; [|split; [exact Hon|split]]].
    + rewrite supports_recognized; [reflexivity| now right | left; eauto].
    + now rewrite (addEventListener_bound _ _ _ _ _ lib HH Hb).
    + intros Hbad.
      assert (In (OutsideAngular, On mc eventName cb)
                 (List.filter is_on
                    (calls_of this (AAddEventListener element eventName handler) w))) as Hf
        by (apply List.filter_In; split; [exact Hbad | reflexivity]).
      rewrite Hon in Hf. destruct Hf as [Hf|[]]. apply Hne. now inversion Hf.
    + intros Hk He. rewrite supports_unrecognized; [reflexivity|].
      unfold recognized. rewrite toLowerCase_idem. tauto.
Qed.

(** * Further properties of the plugin *)

(** ** supports and addEventListener together *)


(** X3.  With the engine present, [addEventListener] throws in exactly
    two situations.  When the engine's constructor rejects the element,
    the state is left exactly as it was.  When the instance built lacks a
    recognizer the configuration names, the instance stays behind with the
    settings made before the missing one: no callback is created, [on] is
    not called, and the zone is the caller's again. *)
Theorem direct_binding_failures
    (this : HammerGesturesPlugin) (element : Element) (eventName : string)
    (handler : Handler) (w : World) (lib : HammerLib) :
  Hammer w = Some lib ->
  let has := recognizers lib element (options (_config this)) in
  let result := fst (addEventListener this element eventName handler w) in
  let w' := snd (addEventListener this element eventName handler w) in
  (result = Throw EngineThrew
   <-> constructs lib element (options (_config this)) = false)
  /\ (result = Throw NoRecognizer
      <-> constructs lib element (options (_config this)) = true
          /\ exists x, In x (settings (_config this)) /\ has (fst x) = false)
  /\ (forall e, result = Throw e -> e = EngineThrew \/ e = NoRecognizer)
  /\ (result = Throw EngineThrew -> w' = w)
  /\ (result = Throw NoRecognizer ->
      exists before x after,
        settings (_config this) = before ++ x :: after
        /\ Forall (fun y => has (fst y) = true) before
        /\ has (fst x) = false
        /\ calls_of this (AAddEventListener element eventName handler) w
           = map (pair OutsideAngular)
               (HammerNew (managers w) element (options (_config this))
                :: map (set_call (managers w)) before)
        /\ managers w' = S (managers w)
        /\ callbacks w' = callbacks w /\ pending w' = pending w
        /\ zone w' = zone w /\ Hammer w' = Hammer w).
Proof.
  intros HH has result w'. subst result w'.
  destruct (constructs lib element (options (_config this))) eqn:Hk.
  - destruct (all_present has (settings (_config this))) eqn:Hall.
    + rewrite (addEventListener_bound _ _ _ _ _ lib HH (builds_of_parts _ _ lib Hk Hall)).
      cbn [fst snd].
      split; [split; discriminate|]. split; [|split; [|split]]; try discriminate.
      split; [discriminate|]. intros [_ [x [Hin Hx]]].
      pose proof (proj1 (all_present_In has _) Hall x Hin) as Hx'. congruence.
    + rewrite (addEventListener_half_built _ _ _ _ _ lib HH Hk Hall).
      cbn [fst snd]. fold has.
      destruct (applied_prefix has (settings (_config this))) as [rest [Hsplit Hrest]].
      destruct (Hrest Hall) as [x [rest' [-> Hx]]].
      split; [split; discriminate|]. split; [|split; [|split]].
      * split; [|reflexivity]. intros _. split; [reflexivity|].
        exists x. split; [|exact Hx]. rewrite Hsplit. apply in_or_app. right. now left.
      * intros e He. inversion He. now right.
      * discriminate.
      * intros _. exists (applied has (settings (_config this))), x, rest'.
        split; [exact Hsplit|]. split; [apply applied_present|]. split; [exact Hx|].
        split; [|repeat split].
        unfold calls_of. cbn [step]. rewrite (addEventListener_half_built _ _ _ _ _ lib HH Hk Hall).
        cbn [snd]. rewrite half_built_world_log. apply drop_app_length.
  - rewrite (addEventListener_refused _ _ _ _ _ lib HH Hk). cbn [fst snd].
    split; [split; reflexivity|]. split; [|split; [|split]].
    + split; [discriminate | intros [? _]; discriminate].
    + intros e He. inversion He. now left.
    + reflexivity.
    + discriminate.
Qed.

(** ** The calls one action makes *)

(** Everything an action can add to the log, with what it does to the
    counters beside. *)
Lemma transition_calls (this : HammerGesturesPlugin) (a : Action) (w w' : World) :
  transition this w a w' ->
  zone w' = zone w
  /\ ((log w' = log w /\ managers w' = managers w /\ callbacks w' = callbacks w)
      \/ (exists msg, log w' = log w ++ [(zone w, Warn msg)]
                      /\ managers w' = managers w /\ callbacks w' = callbacks w)
      \/ (exists el n h,
            log w' = log w ++ map (pair OutsideAngular)
                                (build_calls (_config this) (managers w) el
                                 ++ [On (managers w) n (length (callbacks w))])
            /\ managers w' = S (managers w) /\ callbacks w' = callbacks w ++ [h])
      \/ (exists el n h l,
            a = AAddEventListener el n h /\ Hammer w = None /\ loader this = Some l
            /\ log w' = log w ++ [(zone w, LoaderCalled l)]
            /\ managers w' = managers w /\ callbacks w' = callbacks w)
      \/ (exists f mc n cb,
            a = AInvoke f /\ log w' = log w ++ [(zone w, Off mc n cb)]
            /\ managers w' = managers w /\ callbacks w' = callbacks w)
      \/ (exists cb ev h,
            a = ADeliver cb ev /\ callbacks w !! cb = Some h
            /\ log w' = log w ++ [(Guarded, HandlerCalled h ev)]
            /\ managers w' = managers w /\ callbacks w' = callbacks w)
      \/ (exists el has warning,
            log w' = log w
                     ++ map (pair OutsideAngular)
                          (built_calls (_config this) has (managers w) el)
                     ++ warning
            /\ (warning = [] \/ exists msg, warning = [(zone w, Warn msg)])
            /\ managers w' = S (managers w) /\ callbacks w' = callbacks w)).
Proof.
  intros T.
  destruct T as [a| n | el n h lib HH Hk | el n h l HH HL | f mc n cb | f r0 c0 Hc0
                 | r0 o c0 msg Hc0 Hp0 | r0 c0 Hc0 Hp0 Hcan | r0 c0 lib Hc0 Hp0 Hcan HH Hk
                 | hm | cb ev h Hcb
                 | el n h lib HH Hk Hall | r0 c0 lib Hc0 Hp0 Hcan HH Hk Hall];
    (split; [reflexivity|]).
  12: { do 6 right. exists el, (recognizers lib el (options (_config this))), [].
        split; [|auto]. rewrite app_nil_r. apply half_built_world_log. }
  12: { do 6 right.
        exists (reg_element c0),
               (recognizers lib (reg_element c0) (options (_config this))),
               [(zone w, Warn (loader_failed_message (reg_eventName c0)))].
        split; [reflexivity|]. split; [right; eauto | auto]. }
  - left. auto.
  - right. left. eexists. repeat split.
  - right. right. left. exists el, (toLowerCase n), h. repeat split.
  - do 3 right. left. exists el, n, h, l. repeat split; assumption.
  - do 4 right. left. exists f, mc, n, cb. repeat split.
  - left. repeat split.
  - right. left. exists msg. repeat split.
  - left. repeat split.
  - right. right. left.
    exists (reg_element c0), (toLowerCase (reg_eventName c0)), (reg_handler c0).
    repeat split.
  - left. repeat split.
  - do 5 right. left. exists cb, ev, h. repeat split. assumption.
Qed.

Lemma not_in_building (z : Zone) (c : Call) (cfg : HammerGestureConfig)
    (has : string -> bool) (mc : Manager) (el : Element) (warning : list Obs) :
  is_engine_call (z, c) = false ->
  (forall msg, c <> Warn msg) ->
  (warning = [] \/ exists msg, warning = [(z, Warn msg)]) ->
  ~ In (z, c) (map (pair OutsideAngular) (built_calls cfg has mc el) ++ warning).
Proof.
  intros Hc Hw Hwarn H. apply in_app_or in H. destruct H as [H|H].
  - apply in_map_iff in H. destruct H as [x [Hx Hin]]. inversion Hx; subst.
    apply built_calls_kinds in Hin. destruct Hin as [->|[k [o ->]]]; discriminate.
  - destruct Hwarn as [->|[msg ->]]; [destruct H|].
    destruct H as [H|[]]. inversion H. symmetry in H1. exact (Hw msg H1).
Qed.

Lemma not_in_binding (z : Zone) (c : Call) (cfg : HammerGestureConfig)
    (mc : Manager) (el : Element) (n : string) (cb : CallbackRef) :
  is_engine_call (z, c) = false ->
  ~ In (z, c) (map (pair OutsideAngular) (build_calls cfg mc el ++ [On mc n cb])).
Proof.
  intros Hc H. apply in_map_iff in H. destruct H as [x [Hx Hin]].
  inversion Hx; subst. apply in_app_or in Hin.
  destruct Hin as [Hin|[Hin|[]]]; [|subst; discriminate].
  unfold build_calls in Hin.
  destruct Hin as [Hin|[Hin|[Hin|Hin]]]; try (subst; discriminate).
  apply in_map_iff in Hin. destruct Hin as [k [Hk _]]. subst. discriminate.
Qed.

(** X2.  The loader is called by one thing only: a call of
    [addEventListener] made while the engine is absent, which calls it
    exactly once and makes no other call.  With the engine present a
    configured loader is never called, and neither the settling of a
    promise nor a deregistration ever calls it again. *)
Theorem loader_called_only_when_deferring
    (this : HammerGesturesPlugin) (a : Action) (w : World) (z : Zone) (l : LoaderFn) :
  In (z, LoaderCalled l) (calls_of this a w) ->
  (exists el n h, a = AAddEventListener el n h)
  /\ Hammer w = None
  /\ loader this = Some l
  /\ calls_of this a w = [(zone w, LoaderCalled l)].
Proof.
  unfold calls_of.
  destruct (transition_calls this a w _ (step_transition this a w))
    as [_ [[Hl _]|[[msg [Hl _]]|[[el [n [h [Hl _]]]]|[[el [n [h [l' [Ha [HH [HL [Hl _]]]]]]]]
          |[[f [mc [n [cb [_ [Hl _]]]]]]|[[cb [ev [h [_ [_ [Hl _]]]]]]
          |[el [has [warning [Hl [Hwarn _]]]]]]]]]]]];
    rewrite Hl; rewrite ?drop_all, ?drop_app_length; intros Hin.
  - destruct Hin.
  - destruct Hin as [H|[]]. discriminate.
  - exfalso. revert Hin. now apply not_in_binding.
  - destruct Hin as [H|[]]. inversion H; subst. repeat split; eauto.
  - destruct Hin as [H|[]]. discriminate.
  - destruct Hin as [H|[]]. discriminate.
  - exfalso. destruct Hwarn as [->|[msg ->]].
    + revert Hin. apply not_in_building; [reflexivity | discriminate | now left].
    + apply in_app_or in Hin. destruct Hin as [Hin|[Hin|[]]]; [|discriminate].
      revert Hin. rewrite <- (app_nil_r (map _ _)).
      apply not_in_building; [reflexivity | discriminate | now left].
Qed.

(** X4.  The caller's handler is called by one thing only: the delivery of
    an event to a wrapped callback, which calls the handler that callback
    captured, once, with the event delivered.  Registering, settling and
    deregistering never call a handler. *)
Theorem handler_called_only_on_delivery
    (this : HammerGesturesPlugin) (a : Action) (w : World) (z : Zone)
    (h : Handler) (ev : EventObj) :
  In (z, HandlerCalled h ev) (calls_of this a w) ->
  exists cb, a = ADeliver cb ev
             /\ callbacks w !! cb = Some h
             /\ z = Guarded
             /\ calls_of this a w = [(Guarded, HandlerCalled h ev)].
Proof.
  unfold calls_of.
  destruct (transition_calls this a w _ (step_transition this a w))
    as [_ [[Hl _]|[[msg [Hl _]]|[[el [n [h' [Hl _]]]]|[[el [n [h' [l' [Ha [HH [HL [Hl _]]]]]]]]
          |[[f [mc [n [cb [_ [Hl _]]]]]]|[[cb [ev' [h' [Ha [Hcb [Hl _]]]]]]
          |[el [has [warning [Hl [Hwarn _]]]]]]]]]]]];
    rewrite Hl; rewrite ?drop_all, ?drop_app_length; intros Hin.
  - destruct Hin.
  - destruct Hin as [H|[]]. discriminate.
  - exfalso. revert Hin. now apply not_in_binding.
  - destruct Hin as [H|[]]. discriminate.
  - destruct Hin as [H|[]]. discriminate.
  - destruct Hin as [H|[]]. inversion H; subst. exists cb. auto.
  - exfalso. destruct Hwarn as [->|[msg ->]].
    + revert Hin. apply not_in_building; [reflexivity | discriminate | now left].
    + apply in_app_or in Hin. destruct Hin as [Hin|[Hin|[]]]; [|discriminate].
      revert Hin. rewrite <- (app_nil_r (map _ _)).
      apply not_in_building; [reflexivity | discriminate | now left].
Qed.

(** ** Zones *)

Lemma binding_calls_zone (ambient : Zone) (cfg : HammerGestureConfig) (mc : Manager)
    (el : Element) (n : string) (cb : CallbackRef) :
  Forall (fun o => fst o = zone_of_call ambient (snd o))
    (map (pair OutsideAngular) (build_calls cfg mc el ++ [On mc n cb])).
Proof.
  apply List.Forall_forall. intros o Hin. apply in_map_iff in Hin.
  destruct Hin as [c [<- Hin]]. simpl. apply in_app_or in Hin.
  destruct Hin as [Hin|[<-|[]]]; [|reflexivity].
  unfold build_calls in Hin.
  destruct Hin as [<-|[<-|[<-|Hin]]]; try reflexivity.
  apply in_map_iff in Hin. destruct Hin as [k [<- _]]. reflexivity.
Qed.

Lemma building_calls_zone (ambient : Zone) (cfg : HammerGestureConfig)
    (has : string -> bool) (mc : Manager) (el : Element) :
  Forall (fun o => fst o = zone_of_call ambient (snd o))
    (map (pair OutsideAngular) (built_calls cfg has mc el)).
Proof.
  apply List.Forall_forall. intros o Hin. apply in_map_iff in Hin.
  destruct Hin as [c [<- Hin]]. simpl.
  apply built_calls_kinds in Hin. destruct Hin as [->|[k [o' ->]]]; reflexivity.
Qed.

Lemma step_zone (this : HammerGesturesPlugin) (a : Action) (w : World) :
  zone (step this a w) = zone w
  /\ exists calls, log (step this a w) = log w ++ calls
                   /\ Forall (fun o => fst o = zone_of_call (zone w) (snd o)) calls.
Proof.
  destruct (transition_calls this a w _ (step_transition this a w))
    as [Hz [[Hl _]|[[msg [Hl _]]|[[el [n [h [Hl _]]]]|[[el [n [h [l [_ [_ [_ [Hl _]]]]]]]]
          |[[f [mc [n [cb [_ [Hl _]]]]]]|[[cb [ev [h [_ [_ [Hl _]]]]]]
          |[el [has [warning [Hl [Hwarn _]]]]]]]]]]]];
    (split; [exact Hz|]).
  - exists []. split; [now rewrite app_nil_r | constructor].
  - eexists. split; [exact Hl | repeat constructor].
  - eexists. split; [exact Hl | apply binding_calls_zone].
  - eexists. split; [exact Hl | repeat constructor].
  - eexists. split; [exact Hl | repeat constructor].
  - eexists. split; [exact Hl | repeat constructor].
  - eexists. split; [exact Hl|]. apply Forall_app. split; [apply building_calls_zone|].
    destruct Hwarn as [->|[msg ->]]; repeat constructor.
Qed.

(** X5.  Over any run the plugin leaves the caller's zone as it found it,
    and every call it makes is made in its own place: the engine's
    constructor, the recognizer settings and [on] outside the host's zone,
    the handler inside [runGuarded], and the warnings, the loader and
    [off] in the zone the plugin was entered from. *)
Theorem every_call_in_its_zone
    (this : HammerGesturesPlugin) (acts : list Action) (w : World) :
  let w' := run this acts w in
  let added := drop (length (log w)) (log w') in
  zone w' = zone w
  /\ log w' = log w ++ added
  /\ Forall (fun o => fst o = zone_of_call (zone w) (snd o)) added.
Proof.
  assert (forall acts w,
            zone (run this acts w) = zone w
            /\ exists calls, log (run this acts w) = log w ++ calls
                 /\ Forall (fun o => fst o = zone_of_call (zone w) (snd o)) calls) as H.
  { clear acts w. induction acts as [|a acts IH]; intros w.
    - split; [reflexivity|]. exists []. split; [now rewrite app_nil_r | constructor].
    - rewrite run_cons.
      destruct (step_zone this a w) as [Hz [c1 [Hl1 Hf1]]].
      destruct (IH (step this a w)) as [Hz2 [c2 [Hl2 Hf2]]].
      split; [congruence|]. exists (c1 ++ c2). split.
      + rewrite Hl2, Hl1. now rewrite <- app_assoc.
      + apply Forall_app. split; [exact Hf1|]. now rewrite <- Hz. }
  intros w' added. subst w' added.
  destruct (H acts w) as [Hz [calls [Hl Hf]]].
  rewrite Hl, drop_app_length. auto.
Qed.

(** ** Instances, callbacks and listeners *)

Lemma instances_built_app (l1 l2 : list Obs) :
  instances_built (l1 ++ l2) = instances_built l1 ++ instances_built l2.
Proof.
  induction l1 as [|[z c] l1 IH]; simpl; [reflexivity|].
  destruct c; simpl; now rewrite IH.
Qed.

Lemma listeners_app (l1 l2 : list Obs) :
  listeners (l1 ++ l2) = listeners l1 ++ listeners l2.
Proof.
  induction l1 as [|[z c] l1 IH]; simpl; [reflexivity|].
  destruct c; simpl; now rewrite IH.
Qed.

Lemma binding_ids (z : Zone) (cfg : HammerGestureConfig) (mc : Manager)
    (el : Element) (n : string) (cb : CallbackRef) :
  instances_built (map (pair z) (build_calls cfg mc el ++ [On mc n cb])) = [mc]
  /\ listeners (map (pair z) (build_calls cfg mc el ++ [On mc n cb])) = [(mc, cb)].
Proof.
  rewrite map_app, instances_built_app, listeners_app. unfold build_calls. simpl.
  induction (for_in_keys (overrides cfg)) as [|k ks IH]; simpl; [auto|exact IH].
Qed.

Lemma building_ids (z : Zone) (cfg : HammerGestureConfig) (has : string -> bool)
    (mc : Manager) (el : Element) :
  instances_built (map (pair z) (built_calls cfg has mc el)) = [mc]
  /\ listeners (map (pair z) (built_calls cfg has mc el)) = [].
Proof.
  unfold built_calls. cbn [map instances_built listeners].
  induction (applied has (settings cfg)) as [|k ks IH]; simpl; [auto|exact IH].
Qed.

(** What one action adds to the instances built and to the listeners:
    nothing; an instance with its listener and callback; or, when the
    build stops at a missing recognizer, an instance alone. *)
Lemma step_ids (this : HammerGesturesPlugin) (a : Action) (w : World) :
  let w' := step this a w in
  (instances_built (log w') = instances_built (log w)
   /\ listeners (log w') = listeners (log w)
   /\ managers w' = managers w /\ length (callbacks w') = length (callbacks w))
  \/ (instances_built (log w') = instances_built (log w) ++ [managers w]
      /\ listeners (log w') = listeners (log w) ++ [(managers w, length (callbacks w))]
      /\ managers w' = S (managers w)
      /\ length (callbacks w') = S (length (callbacks w)))
  \/ (instances_built (log w') = instances_built (log w) ++ [managers w]
      /\ listeners (log w') = listeners (log w)
      /\ managers w' = S (managers w)
      /\ length (callbacks w') = length (callbacks w)).
Proof.
  cbv zeta.
  destruct (transition_calls this a w _ (step_transition this a w))
    as [_ [ [Hl [Hm Hc]]
          | [ [msg [Hl [Hm Hc]]]
            | [ [el [n [h [Hl [Hm Hc]]]]]
              | [ [el [n [h [l [_ [_ [_ [Hl [Hm Hc]]]]]]]]]
                | [ [f [mc [n [cb [_ [Hl [Hm Hc]]]]]]]
                  | [ [cb [ev [h [_ [_ [Hl [Hm Hc]]]]]]]
                    | [el [has [warning [Hl [Hwarn [Hm Hc]]]]]] ]]]]]]];
    rewrite Hl, Hm, Hc, ?instances_built_app, ?listeners_app;
    try solve [simpl; rewrite ?app_nil_r; auto].
  - right. left.
    destruct (binding_ids OutsideAngular (_config this) (managers w) el n
                (length (callbacks w))) as [-> ->].
    rewrite length_app. simpl. repeat split. lia.
  - right. right.
    destruct (building_ids OutsideAngular (_config this) has (managers w) el) as [-> ->].
    destruct Hwarn as [->|[msg ->]]; simpl; rewrite ?app_nil_r; auto.
Qed.

(** X6.  Over any run, every instance the plugin's counter records was
    built by a call of the engine's constructor and every wrapped callback
    was created for a call of [on]: the instances built are as many as the
    constructor calls, the callbacks as many as the calls of [on], and the
    calls of [on] are never more than the instances, one short for every
    build that stopped at a missing recognizer. *)
Theorem one_instance_and_one_callback_per_listener
    (this : HammerGesturesPlugin) (acts : list Action) (w : World) :
  let w' := run this acts w in
  let added := drop (length (log w)) (log w') in
  managers w' = managers w + length (instances_built added)
  /\ length (callbacks w') = length (callbacks w) + length (listeners added)
  /\ length (listeners added) <= length (instances_built added)
  /\ (forall a, length (listeners (calls_of this a w))
                <= length (instances_built (calls_of this a w)) <= 1).
Proof.
  assert (forall a w,
            length (listeners (calls_of this a w))
            <= length (instances_built (calls_of this a w)) <= 1
            /\ managers (step this a w)
               = managers w + length (instances_built (calls_of this a w))
            /\ length (callbacks (step this a w))
               = length (callbacks w) + length (listeners (calls_of this a w))) as Hstep.
  { clear acts w. intros a w. pose proof (step_log this a w) as Hl1.
    destruct (step_ids this a w) as [[Hi [Hls [Hm Hc]]]|[[Hi [Hls [Hm Hc]]]|[Hi [Hls [Hm Hc]]]]];
      rewrite Hl1, instances_built_app in Hi; rewrite Hl1, listeners_app in Hls;
      apply (f_equal (@length _)) in Hi, Hls;
      repeat rewrite length_app in Hi; repeat rewrite length_app in Hls;
      simpl in Hi, Hls; lia. }
  assert (forall acts w,
            exists calls, log (run this acts w) = log w ++ calls
              /\ managers (run this acts w) = managers w + length (instances_built calls)
              /\ length (callbacks (run this acts w))
                 = length (callbacks w) + length (listeners calls)
              /\ length (listeners calls) <= length (instances_built calls)) as H.
  { clear acts w. induction acts as [|a acts IH]; intros w.
    - exists []. simpl. rewrite app_nil_r. repeat split; lia.
    - rewrite run_cons. destruct (IH (step this a w)) as [c2 [Hl2 [Hm2 [Hc2 Hi2]]]].
      pose proof (step_log this a w) as Hl1.
      exists (calls_of this a w ++ c2). split; [rewrite Hl2, Hl1; now rewrite <- app_assoc|].
      rewrite instances_built_app, listeners_app, !length_app.
      destruct (Hstep a w) as [Hle [Hm Hc]]. repeat split; lia. }
  intros w' added. subst w' added.
  destruct (H acts w) as [calls [Hl [Hm [Hc Hi]]]].
  rewrite Hl, drop_app_length.
  split; [exact Hm|]. split; [exact Hc|]. split; [exact Hi|].
  intros a. apply Hstep.
Qed.


(** ** Deferred calls do not interfere *)

Lemma settle_other (this : HammerGesturesPlugin) (r1 r2 : CellRef) (o : Settlement)
    (w : World) :
  r1 <> r2 -> pending (settle this r1 o w) !! r2 = pending w !! r2.
Proof.
  intros Hne. pose proof (step_transition this (ASettle r1 o) w) as T. simpl in T.
  remember (settle this r1 o w) as w' eqn:E. clear E.
  inversion T; subst; simpl; try reflexivity;
    apply list_lookup_insert_ne; congruence.
Qed.

(** X8.  Deferred calls are independent: calling the function returned by
    one of them, in whatever state that call is, and the settling of its
    promise, whichever way, leave the variables of every other deferred
    call (flag, [deregister], promise) as they were. *)
Theorem deferred_calls_do_not_interfere
    (this : HammerGesturesPlugin) (r1 r2 : CellRef) (w : World) :
  r1 <> r2 ->
  known r1 w ->
  pending (snd (invoke (FDeref r1) w)) !! r2 = pending w !! r2
  /\ forall o, pending (settle this r1 o w) !! r2 = pending w !! r2.
Proof.
  intros Hne Hk. split; [|intros o; now apply settle_other].
  destruct Hk as [[c [Hc [Hd _]]]|[Hcan|[Hf|[mc [n [cb Hb]]]]]].
  - rewrite (invoke_handle_cancels _ _ _ Hc Hd). simpl.
    apply list_lookup_insert_ne. congruence.
  - now rewrite (cancelled_invoke r1 w Hcan).
  - now rewrite (failed_invoke r1 w Hf).
  - now rewrite (bound_as_invoke r1 mc n cb w Hb).
Qed.

(** ** The engine flag *)

Lemma supports_reads_Hammer (this : HammerGesturesPlugin) (n : string) (w1 w2 : World) :
  Hammer w1 = Hammer w2 -> fst (supports this n w1) = fst (supports this n w2).
Proof.
  intros H. unfold supports.
  destruct (negb (hasOwnProperty EVENT_NAMES (toLowerCase n)) && negb (isCustomEvent this n));
    [reflexivity|].
  unfold bind, window_Hammer. rewrite H.
  now destruct (negb (bool_decide (is_Some (Hammer w2)))
                && negb (bool_decide (is_Some (loader this)))).
Qed.

(** X9.  The plugin reads [window.Hammer] and never writes it: over any
    run in which the engine does not install or remove itself the flag
    stays as it was, and with it the answer [supports] gives for every
    name, however many listeners were added, loaded, cancelled or
    removed meanwhile. *)
Theorem plugin_never_installs_the_engine
    (this : HammerGesturesPlugin) (acts : list Action) (w : World) :
  Forall not_installing acts ->
  Hammer (run this acts w) = Hammer w
  /\ forall n, fst (supports this n (run this acts w)) = fst (supports this n w).
Proof.
  intros Hall.
  assert (Hammer (run this acts w) = Hammer w) as HH.
  { apply (run_preserves this not_installing (fun w' => Hammer w' = Hammer w));
      [|assumption|reflexivity].
    intros a w0 Ha <-. pose proof (step_transition this a w0) as T.
    remember (step this a w0) as w' eqn:E. clear E.
    destruct T; try reflexivity. exfalso. exact (Ha _ eq_refl). }
  split; [exact HH|]. intros n. now apply supports_reads_Hammer.
Qed.

(** ** Handlers *)

(** X10.  From the start, a handler that was never passed to
    [addEventListener] is never called, whatever the loader, the engine
    and the host do. *)
Theorem handler_never_called_unless_added
    (this : HammerGesturesPlugin) (hm : option HammerLib) (h : Handler)
    (acts : list Action) :
  Forall (not_adding h) acts ->
  forall z ev, ~ In (z, HandlerCalled h ev) (log (run this acts (initial hm))).
Proof.
  intros Hall z ev Hin.
  assert (~ reachable h (initial hm)) as Hun.
  { intros [H|[r [c [H _]]]]; [destruct H | discriminate]. }
  exact (unreachable_run this h acts (initial hm) Hall Hun z ev Hin).
Qed.

(** ** The order of the recognizer settings *)

Lemma last_setting_app (mc : Manager) (k : string) (l1 l2 : list Obs) :
  last_setting mc k (l1 ++ l2)
  = match last_setting mc k l2 with
    | Some opts => Some opts
    | None => last_setting mc k l1
    end.
Proof.
  induction l1 as [|o l1 IH]; simpl.
  - now destruct (last_setting mc k l2).
  - rewrite IH. now destruct (last_setting mc k l2).
Qed.

Lemma last_setting_overrides (z : Zone) (mc : Manager) (k : string)
    (ov : JsObject Bag) (keys : list string) :
  last_setting mc k (map (fun k' => (z, RecognizerSet mc k' (prop ov k'))) keys)
  = if existsb (fun k' => String.eqb k' k) keys then Some (prop ov k) else None.
Proof.
  induction keys as [|k0 keys IH]; simpl; [reflexivity|].
  rewrite IH. destruct (existsb (fun k' => String.eqb k' k) keys).
  - now rewrite orb_true_r.
  - rewrite orb_false_r, Nat.eqb_refl. simpl.
    destruct (String.eqb_spec k0 k) as [->|Hne]; reflexivity.
Qed.

Lemma existsb_keys {V} (o : JsObject V) (k : string) :
  existsb (fun k' => String.eqb k' k) (for_in_keys o) = hasOwnProperty o k.
Proof.
  unfold hasOwnProperty, for_in_keys.
  induction o as [|kv o IH]; simpl; [reflexivity | now rewrite IH].
Qed.

Lemma prop_none {V} (o : JsObject V) (k : string) :
  hasOwnProperty o k = false -> prop o k = None.
Proof.
  unfold hasOwnProperty. induction o as [|[k' v] o IH]; simpl; [reflexivity|].
  destruct (String.eqb k' k); simpl; [discriminate | exact IH].
Qed.

(** X11.  In [buildHammer] the overrides are applied after the settings
    of pinch and rotate, so they have the last word.  After a build that
    gets through, the options last given to a recognizer are: the bag
    [overrides] holds for it when [overrides] names it, pinch and rotate
    included; [{enable: true}] for pinch and for rotate when [overrides]
    does not name them; and no other recognizer is given any. *)
Theorem overrides_have_the_last_word
    (cfg : HammerGestureConfig) (element : Element) (w : World) (lib : HammerLib) :
  Hammer w = Some lib ->
  builds lib cfg element = true ->
  let added := drop (length (log w)) (log (snd (buildHammer cfg element w))) in
  fst (buildHammer cfg element w)
  = Ok (mkInstance (managers w) (recognizers lib element (options cfg)))
  /\ forall k,
       last_setting (managers w) k added
       = match prop (overrides cfg) k with
         | Some bag => Some (Some bag)
         | None =>
             if String.eqb "pinch" k || String.eqb "rotate" k
             then Some (Some [("enable", "true")])
             else None
         end.
Proof.
  intros HH Hk added. subst added.
  rewrite (buildHammer_ok cfg element w lib HH Hk). split; [reflexivity|]. intros k.
  simpl log.
  rewrite drop_app_length. unfold build_calls, settings, set_call. simpl map.
  rewrite !map_map. cbn [fst snd].
  etransitivity;
    [exact (last_setting_app (managers w) k
              [(zone w, HammerNew (managers w) element (options cfg));
               (zone w, RecognizerSet (managers w) "pinch" (Some enable_true));
               (zone w, RecognizerSet (managers w) "rotate" (Some enable_true))]
              (map (fun k' => (zone w, RecognizerSet (managers w) k'
                                          (prop (overrides cfg) k')))
                 (for_in_keys (overrides cfg))))|].
  rewrite last_setting_overrides, existsb_keys.
  destruct (hasOwnProperty (overrides cfg) k) eqn:Hown.
  - apply hasOwnProperty_In in Hown.
    destruct (prop_of_key _ _ Hown) as [bag [-> _]]. reflexivity.
  - rewrite (prop_none _ _ Hown). cbn [last_setting snd].
    rewrite Nat.eqb_refl. cbn [andb].
    destruct (String.eqb "rotate" k), (String.eqb "pinch" k); reflexivity.
Qed.

(** ** A constructor that throws *)

(** X12.  The same failure has two outcomes.  When the engine's
    constructor throws in a call made with the engine present, the
    exception reaches the caller.  When it throws in the binding that
    follows a successful load, the promise chain catches it: one warning
    is logged, which blames the loader, nothing is built, and the function
    the caller holds does nothing from then on, without throwing. *)
Theorem constructor_failure_after_load_is_caught
    (this : HammerGesturesPlugin) (r : CellRef) (c : Registration) (w : World)
    (lib : HammerLib) (after : list Action) :
  pending w !! r = Some c ->
  reg_promise c = Outstanding ->
  cancelRegistration c = false ->
  Hammer w = Some lib ->
  constructs lib (reg_element c) (options (_config this)) = false ->
  let w1 := settle this r Fulfilled w in
  let w2 := run this after w1 in
  addEventListener this (reg_element c) (reg_eventName c) (reg_handler c) w
  = (Throw EngineThrew, w)
  /\ calls_of this (ASettle r Fulfilled) w
     = [(zone w, Warn (loader_failed_message (reg_eventName c)))]
  /\ managers w1 = managers w /\ callbacks w1 = callbacks w /\ zone w1 = zone w
  /\ failed r w1
  /\ invoke (FDeref r) w2 = (Ok tt, w2).
Proof.
  intros Hc Hp Hcan HH Hk w1 w2.
  pose proof (settle_fulfilled_refused this r c w Hc Hp lib HH Hcan Hk) as Hs.
  fold w1 in Hs.
  assert (failed r w1) as Hf1.
  { rewrite Hs. exists (settled_with FNoop c).
    split; [eapply lookup_written, Hc|]. simpl. auto. }
  split; [exact (addEventListener_refused this _ _ _ w lib HH Hk)|].
  split; [|split; [|split; [|split; [|split]]]].
  - unfold calls_of. simpl. fold w1. rewrite Hs. simpl. apply drop_app_length.
  - now rewrite Hs.
  - now rewrite Hs.
  - now rewrite Hs.
  - exact Hf1.
  - apply failed_invoke.
    apply (run_preserves_all this (failed r)); [|exact Hf1].
    intros a w0. apply failed_step.
Qed.

(** ** A recognizer that is missing *)

(** X13.  The same holds of a missing recognizer.  When the instance
    built in the binding that follows a successful load lacks a
    recognizer the configuration names, the promise chain catches the
    exception that the direct call lets through: the instance stays
    built, with the settings made before the missing one, one warning is
    logged, which blames the loader, no callback is created, [on] is not
    called, and the function the caller holds does nothing from then on,
    without throwing. *)
Theorem missing_recognizer_after_load_is_caught
    (this : HammerGesturesPlugin) (r : CellRef) (c : Registration) (w : World)
    (lib : HammerLib) (after : list Action) :
  pending w !! r = Some c ->
  reg_promise c = Outstanding ->
  cancelRegistration c = false ->
  Hammer w = Some lib ->
  constructs lib (reg_element c) (options (_config this)) = true ->
  all_present (recognizers lib (reg_element c) (options (_config this)))
    (settings (_config this)) = false ->
  let has := recognizers lib (reg_element c) (options (_config this)) in
  let w1 := settle this r Fulfilled w in
  let w2 := run this after w1 in
  fst (addEventListener this (reg_element c) (reg_eventName c) (reg_handler c) w)
  = Throw NoRecognizer
  /\ calls_of this (ASettle r Fulfilled) w
     = map (pair OutsideAngular)
         (HammerNew (managers w) (reg_element c) (options (_config this))
          :: map (set_call (managers w)) (applied has (settings (_config this))))
       ++ [(zone w, Warn (loader_failed_message (reg_eventName c)))]
  /\ List.filter is_on (calls_of this (ASettle r Fulfilled) w) = []
  /\ managers w1 = S (managers w) /\ callbacks w1 = callbacks w /\ zone w1 = zone w
  /\ failed r w1
  /\ invoke (FDeref r) w2 = (Ok tt, w2).
Proof.
  intros Hc Hp Hcan HH Hk Hall has w1 w2.
  pose proof (settle_fulfilled_half_built this r c w Hc Hp lib HH Hcan Hk Hall) as Hs.
  fold w1 in Hs. fold has in Hs.
  assert (failed r w1) as Hf1.
  { rewrite Hs. exists (settled_with FNoop c).
    split; [eapply lookup_written, Hc|]. simpl. auto. }
  assert (calls_of this (ASettle r Fulfilled) w
          = map (pair OutsideAngular)
              (built_calls (_config this) has (managers w) (reg_element c))
            ++ [(zone w, Warn (loader_failed_message (reg_eventName c)))]) as Hcalls.
  { unfold calls_of. cbn [step]. fold w1. rewrite Hs. cbn [log].
    apply drop_app_length. }
  split; [now rewrite (addEventListener_half_built this _ _ _ w lib HH Hk Hall)|].
  split; [exact Hcalls|]. split; [|split; [|split; [|split; [|split]]]].
  - rewrite Hcalls.
    destruct (building_ids OutsideAngular (_config this) has (managers w) (reg_element c))
      as [_ Hnone].
    assert (forall l, listeners l = [] -> List.filter is_on l = []) as Hfilter.
    { induction l as [|[z k] l IH]; [reflexivity|].
      destruct k; simpl; try exact IH. discriminate. }
    apply Hfilter. rewrite listeners_app. now rewrite Hnone.
  - now rewrite Hs.
  - now rewrite Hs.
  - now rewrite Hs.
  - exact Hf1.
  - apply failed_invoke.
    apply (run_preserves_all this (failed r)); [|exact Hf1].
    intros a w0. apply failed_step.
Qed.

End Names.

(** * Concrete runs *)

(** The names below are strings of ASCII characters, on which the
    built-in is [ascii_toLowerCase]. *)
#[local] Existing Instance ascii_names.

Example toLowerCase_mixed : toLowerCase "PanStart-2" = "panstart-2".
Proof. reflexivity. Qed.

Example supports_any_case :
  fst (supports (mkPlugin (mkConfig [] [] None) (Some 0)) "PanStart" (initial None)) = Ok true
  /\ fst (supports (mkPlugin (mkConfig [] [] None) (Some 0)) "ROTATEEND" (initial None)) = Ok true
  /\ fst (supports (mkPlugin (mkConfig ["Shake"] [] None) (Some 0)) "Shake" (initial None)) = Ok true
  /\ fst (supports (mkPlugin (mkConfig ["Shake"] [] None) (Some 0)) "shake" (initial None)) = Ok false
  /\ fst (supports (mkPlugin (mkConfig [] [] None) (Some 0)) "click" (initial None)) = Ok false.
Proof. repeat split; reflexivity. Qed.

Example preset_engine_recognizers :
  recognizers preset_engine 1 None "pinch" = true
  /\ recognizers preset_engine 1 None "panleft" = false
  /\ recognizers preset_engine 1 (Some [("recognizers", "[]")]) "pinch" = false
  /\ recognizers preset_engine 1 (Some [("touchAction", "none")]) "rotate" = true.
Proof. repeat split; reflexivity. Qed.

Lemma supports_warns_when_unavailable_witness :
  Hammer (initial None) = None
  /\ loader (mkPlugin (mkConfig [] [] None) None) = None
  /\ supports (mkPlugin (mkConfig [] [] None) None) "Pinch" (initial None)
     = (Ok false,
        set_log [(Ambient, Warn (not_loaded_message "Pinch"))] (initial None))
  /\ supports (mkPlugin (mkConfig [] [] None) None) "click" (initial None)
     = (Ok false, initial None).
Proof.
  pose proof (supports_warns_when_unavailable
                (mkPlugin (mkConfig [] [] None) None) "Pinch" (initial None)
                eq_refl eq_refl) as [Hyes _].
  pose proof (supports_warns_when_unavailable
                (mkPlugin (mkConfig [] [] None) None) "click" (initial None)
                eq_refl eq_refl) as [_ [Hno _]].
  split; [reflexivity|]. split; [reflexivity|]. split.
  - apply Hyes. left. vm_compute. tauto.
  - apply Hno. intros [H|H]; vm_compute in H; intuition discriminate.
Defined.

(** C6, counterexample: the base options can take the recognizers away.
    The constructor accepts the element, and [buildHammer] throws at the
    setting of pinch: neither pinch nor rotate is enabled and no instance
    is returned. *)
Lemma buildHammer_stops_at_missing_recognizer :
  let cfg := mkConfig [] [] (Some [("recognizers", "[]")]) in
  let w := initial (Some preset_engine) in
  constructs preset_engine 5 (options cfg) = true
  /\ fst (buildHammer cfg 5 w) = Throw NoRecognizer
  /\ log (snd (buildHammer cfg 5 w))
     = [(Ambient, HammerNew 0 5 (Some [("recognizers", "[]")]))]
  /\ ~ In (Ambient, RecognizerSet 0 "pinch" (Some [("enable", "true")]))
          (log (snd (buildHammer cfg 5 w)))
  /\ ~ In (Ambient, RecognizerSet 0 "rotate" (Some [("enable", "true")]))
          (log (snd (buildHammer cfg 5 w))).
Proof.
  intros cfg w. split; [reflexivity|]. split; [reflexivity|]. split; [reflexivity|].
  split; intros H; vm_compute in H; destruct H as [H|[]]; discriminate.
Qed.

(** An override can also name something the instance has no recognizer
    for (here the event [panleft] of the recognizer [pan]): the build
    throws there and the overrides after it are not applied. *)
Example buildHammer_stops_at_unknown_override :
  let cfg := mkConfig [] [("swipe", [("direction", "30")]);
                          ("panleft", [("threshold", "5")]);
                          ("pinch", [("enable", "false")])] None in
  let w := initial (Some preset_engine) in
  buildHammer cfg 5 w
  = (Throw NoRecognizer,
     mkWorld (Some preset_engine) Ambient
       [(Ambient, HammerNew 0 5 None);
        (Ambient, RecognizerSet 0 "pinch" (Some [("enable", "true")]));
        (Ambient, RecognizerSet 0 "rotate" (Some [("enable", "true")]));
        (Ambient, RecognizerSet 0 "swipe" (Some [("direction", "30")]))]
       1 [] []).
Proof. reflexivity. Qed.

Lemma buildHammer_calls_witness :
  let cfg := mkConfig [] [("swipe", [("direction", "30")]); ("pinch", [("enable", "false")])]
                      (Some [("touchAction", "none")]) in
  let lib := preset_engine in
  let w := initial (Some lib) in
  Hammer w = Some lib
  /\ constructs lib 5 (options cfg) = true
  /\ fst (buildHammer cfg 5 w)
     = Ok (mkInstance 0 (recognizers lib 5 (Some [("touchAction", "none")])))
  /\ log (snd (buildHammer cfg 5 w))
     = [(Ambient, HammerNew 0 5 (Some [("touchAction", "none")]));
        (Ambient, RecognizerSet 0 "pinch" (Some [("enable", "true")]));
        (Ambient, RecognizerSet 0 "rotate" (Some [("enable", "true")]));
        (Ambient, RecognizerSet 0 "swipe" (Some [("direction", "30")]));
        (Ambient, RecognizerSet 0 "pinch" (Some [("enable", "false")]))].
Proof.
  intros cfg lib w.
  pose proof (buildHammer_calls cfg 5 w lib eq_refl eq_refl)
    as [Hl [_ [_ [_ [_ [_ [Hall _]]]]]]].
  split; [reflexivity|]. split; [reflexivity|]. split.
  - apply Hall. intros x Hx. vm_compute in Hx.
    destruct Hx as [<-|[<-|[<-|[<-|[]]]]]; reflexivity.
  - exact Hl.
Defined.

Lemma addEventListener_unavailable_throws_witness :
  Hammer (initial None) = None
  /\ loader (mkPlugin (mkConfig ["shake"] [] None) None) = None
  /\ addEventListener (mkPlugin (mkConfig ["shake"] [] None) None) 1 "shake" 2 (initial None)
     = (Throw HammerNotDefined, initial None).
Proof.
  split; [reflexivity|]. split; [reflexivity|].
  exact (proj1 (proj2 (addEventListener_unavailable_throws
                         (mkPlugin (mkConfig ["shake"] [] None) None) 1 "shake" 2
                         (initial None) eq_refl eq_refl))).
Defined.

(** C3, counterexample: with the engine absent and no loader configured,
    the call does not return. *)
Lemma addEventListener_unavailable_not_noop :
  let this := mkPlugin (mkConfig [] [] None) None in
  Hammer (initial None) = None
  /\ loader this = None
  /\ ~ (exists f w', addEventListener this 1 "tap" 2 (initial None) = (Ok f, w')).
Proof.
  intros this. split; [reflexivity|]. split; [reflexivity|].
  intros [f [w' H]]. vm_compute in H. discriminate.
Qed.

Lemma cancel_before_settle_never_binds_witness :
  let this := mkPlugin (mkConfig [] [] None) (Some 0) in
  let w := initial None in
  let before := [ASupports "swipeleft"; ASetHammer (Some obliging_engine)] in
  let after := [ASettle 0 Fulfilled; ADeliver 0 9; AInvoke (FDeref 0)] in
  let w2 := run this before (snd (addEventListener this 1 "SwipeLeft" 2 w)) in
  let w4 := run this after (snd (invoke (FDeref 0) w2)) in
  Hammer w = None
  /\ loader this = Some 0
  /\ Forall (not_settling 0) before
  /\ invoke (FDeref 0) w4 = (Ok tt, w4)
  /\ forall o, callbacks (settle this 0 o w4) = callbacks w4.
Proof.
  intros this w before after w2 w4.
  assert (Forall (not_settling 0) before) as Hb
    by (repeat constructor; intros o; discriminate).
  pose proof (cancel_before_settle_never_binds this 0 1 "SwipeLeft" 2 w before after
                eq_refl eq_refl Hb) as [_ [_ [_ [_ [_ [_ [Hs Hi]]]]]]].
  split; [reflexivity|]. split; [reflexivity|]. split; [exact Hb|].
  split; [exact Hi|]. intros o. exact (proj1 (proj2 (Hs o))).
Defined.

Lemma off_gets_the_callback_given_to_on_witness :
  let this := mkPlugin (mkConfig [] [] None) (Some 0) in
  let lib := obliging_engine in
  let w := run this [ASetHammer (Some lib)]
               (snd (addEventListener this 1 "PanEnd" 2 (initial None))) in
  let w2 := run this [ADeliver 0 7] (step this (ASettle 0 Fulfilled) w) in
  binds this 1 "PanEnd" 2 (initial None) (FDeref 0) (ASettle 0 Fulfilled) w
  /\ List.filter is_on (calls_of this (ASettle 0 Fulfilled) w) = [(OutsideAngular, On 0 "panend" 0)]
  /\ invoke (FDeref 0) w2 = (Ok tt, set_log (log w2 ++ [(Ambient, Off 0 "panend" 0)]) w2).
Proof.
  intros this lib w w2.
  assert (binds this 1 "PanEnd" 2 (initial None) (FDeref 0) (ASettle 0 Fulfilled) w) as Hb.
  { apply (binds_when_loaded this 1 "PanEnd" 2 (initial None) (FDeref 0) 0
             [ASetHammer (Some lib)] w
             (mkReg false (FCancel 0) 1 "panend" 2 Outstanding) lib); reflexivity. }
  split; [exact Hb|].
  exact (proj2 (off_gets_the_callback_given_to_on this 1 "PanEnd" 2 (initial None)
                  (FDeref 0) (ASettle 0 Fulfilled) w [ADeliver 0 7] Hb)).
Defined.

Lemma bound_callback_runs_handler_once_witness :
  let this := mkPlugin (mkConfig [] [] None) None in
  let w := initial (Some preset_engine) in
  let a := AAddEventListener 1 "SwipeLeft" 2 in
  let w2 := run this [AInvoke FNoop] (step this a w) in
  binds this 1 "SwipeLeft" 2 w (FOff 0 "swipeleft" 0) a w
  /\ In (OutsideAngular, On 0 "swipeleft" 0) (calls_of this a w)
  /\ calls_of this (ADeliver 0 41) w2 = [(Guarded, HandlerCalled 2 41)].
Proof.
  intros this w a w2.
  assert (binds this 1 "SwipeLeft" 2 w (FOff 0 "swipeleft" 0) a w) as Hb.
  { apply (binds_at_once this 1 "SwipeLeft" 2 w (FOff 0 "swipeleft" 0)
             preset_engine); reflexivity. }
  split; [exact Hb|].
  destruct (bound_callback_runs_handler_once this 1 "SwipeLeft" 2 w (FOff 0 "swipeleft" 0)
              a w [AInvoke FNoop] 41 Hb) as [Hon [_ Hcalls]].
  split; [exact Hon | exact Hcalls].
Defined.

Lemma deregister_again_witness :
  let this := mkPlugin (mkConfig [] [] None) (Some 0) in
  let w1 := deferred_world 0 1 "Tap" 2 (initial None) in
  let w2 := run this [ASettle 0 Rejected] w1 in
  addEventListener this 1 "Tap" 2 (initial None) = (Ok (FDeref 0), w1)
  /\ fst (invoke (FDeref 0) w2) = Ok tt
  /\ fst (invoke (FDeref 0) (snd (invoke (FDeref 0) w2))) = Ok tt.
Proof.
  intros this w1 w2.
  assert (addEventListener this 1 "Tap" 2 (initial None) = (Ok (FDeref 0), w1)) as Hadd
    by reflexivity.
  split; [exact Hadd|].
  destruct (deregister_again this 1 "Tap" 2 (initial None) (FDeref 0) w1
              [ASettle 0 Rejected] Hadd) as [H1 [H2 _]].
  split; [exact H1 | exact H2].
Defined.

(** C2, counterexample: after a binding, the second call of the
    returned function is not a no-op, it calls [off] a second time. *)
Lemma second_deregistration_calls_off_again :
  let this := mkPlugin (mkConfig [] [] None) None in
  let w := initial (Some obliging_engine) in
  let f := FOff 0 "tap" 0 in
  let w1 := snd (addEventListener this 1 "tap" 2 w) in
  let w2 := snd (invoke f w1) in
  let w3 := snd (invoke f w2) in
  fst (addEventListener this 1 "tap" 2 w) = Ok f
  /\ w3 <> w2
  /\ log w3 = log w1 ++ [(Ambient, Off 0 "tap" 0); (Ambient, Off 0 "tap" 0)].
Proof.
  intros this w f w1 w2 w3. split; [reflexivity|]. split; [|reflexivity].
  intros H. apply (f_equal (fun x => length (log x))) in H.
  vm_compute in H. discriminate.
Qed.

Lemma failed_load_leaves_a_noop_witness :
  let this := mkPlugin (mkConfig [] [] None) (Some 0) in
  let c := mkReg false (FCancel 0) 1 "tap" 2 Outstanding in
  let w := deferred_world 0 1 "Tap" 2 (initial None) in
  let w2 := run this [ASetHammer (Some obliging_engine); ADeliver 0 5]
                (settle this 0 Rejected w) in
  pending w !! 0 = Some c
  /\ reg_promise c = Outstanding
  /\ (Rejected = Rejected \/ Rejected = Fulfilled /\ Hammer w = None)
  /\ calls_of this (ASettle 0 Rejected) w
     = [(Ambient, Warn (loader_failed_message "tap"))]
  /\ invoke (FDeref 0) w2 = (Ok tt, w2).
Proof.
  intros this c w w2.
  destruct (failed_load_leaves_a_noop this 0 c w Rejected
              [ASetHammer (Some obliging_engine); ADeliver 0 5]
              eq_refl eq_refl (or_introl eq_refl)) as [Hwarn [_ [_ [Hinv _]]]].
  split; [reflexivity|]. split; [reflexivity|]. split; [now left|].
  split; [exact Hwarn | exact Hinv].
Defined.

Lemma listener_name_is_lowercased_witness :
  let this := mkPlugin (mkConfig ["MyEvent"] [] None) (Some 0) in
  let lib := preset_engine in
  let w := run this [ASetHammer (Some lib)]
               (snd (addEventListener this 1 "RotateStart" 2 (initial None))) in
  let w2 := run this [] (step this (ASettle 0 Fulfilled) w) in
  let w3 := initial (Some lib) in
  binds this 1 "RotateStart" 2 (initial None) (FDeref 0) (ASettle 0 Fulfilled) w
  /\ (exists mc cb,
        List.filter (fun c => is_engine_call c && negb (is_build c))
          (calls_of this (ASettle 0 Fulfilled) w)
        = [(OutsideAngular, On mc "rotatestart" cb)]
        /\ calls_of this (AInvoke (FDeref 0)) w2 = [(zone w2, Off mc "rotatestart" cb)])
  /\ In "MyEvent" (events (_config this))
  /\ toLowerCase "MyEvent" <> "MyEvent"
  /\ builds lib (_config this) 1 = true
  /\ fst (supports this "MyEvent" w3) = Ok true
  /\ fst (addEventListener this 1 "MyEvent" 2 w3) = Ok (FOff 0 "myevent" 0)
  /\ List.filter is_on (calls_of this (AAddEventListener 1 "MyEvent" 2) w3)
     = [(OutsideAngular, On 0 "myevent" 0)]
  /\ fst (supports this "myevent" w3) = Ok false.
Proof.
  intros this lib w w2 w3.
  assert (binds this 1 "RotateStart" 2 (initial None) (FDeref 0) (ASettle 0 Fulfilled) w) as Hb.
  { apply (binds_when_loaded this 1 "RotateStart" 2 (initial None) (FDeref 0) 0
             [ASetHammer (Some lib)] w
             (mkReg false (FCancel 0) 1 "rotatestart" 2 Outstanding) lib); reflexivity. }
  assert (In "MyEvent" (events (_config this))) as Hin by (left; reflexivity).
  assert (toLowerCase "MyEvent" <> "MyEvent") as Hne by (intros H; discriminate H).
  destruct (proj2 (proj2 listener_name_is_lowercased) this 1 "MyEvent" 2 w3 lib
              Hin Hne eq_refl eq_refl) as [Hs [Ha [Hon [_ Hlow]]]].
  split; [exact Hb|]. split.
  - exact (proj1 listener_name_is_lowercased this 1 "RotateStart" 2 (initial None)
             (FDeref 0) (ASettle 0 Fulfilled) w [] Hb).
  - split; [exact Hin|]. split; [exact Hne|]. split; [reflexivity|].
    split; [exact Hs|]. split; [exact Ha|]. split; [exact Hon|].
    apply Hlow.
    + intros H. vm_compute in H. intuition discriminate.
    + intros H. vm_compute in H. intuition discriminate.
Defined.


Lemma direct_binding_failures_witness :
  let this := mkPlugin (mkConfig [] [] (Some [("recognizers", "[]")])) None in
  let w := initial (Some preset_engine) in
  let w' := snd (addEventListener this 1 "tap" 2 w) in
  Hammer w = Some preset_engine
  /\ fst (addEventListener this 1 "tap" 2 w) = Throw NoRecognizer
  /\ managers w' = 1
  /\ callbacks w' = []
  /\ zone w' = Ambient.
Proof.
  intros this w w'.
  pose proof (direct_binding_failures this 1 "tap" 2 w preset_engine eq_refl)
    as [_ [_ [_ [_ Hhalf]]]].
  destruct (Hhalf eq_refl) as [before [x [after [_ [_ [_ [_ [Hm [Hc [_ [Hz _]]]]]]]]]]].
  split; [reflexivity|]. split; [reflexivity|].
  split; [exact Hm|]. split; [exact Hc | exact Hz].
Defined.

Lemma loader_called_only_when_deferring_witness :
  let this := mkPlugin (mkConfig [] [] None) (Some 4) in
  let a := AAddEventListener 1 "press" 2 in
  In (Ambient, LoaderCalled 4) (calls_of this a (initial None))
  /\ calls_of this a (initial None) = [(Ambient, LoaderCalled 4)].
Proof.
  intros this a.
  assert (In (Ambient, LoaderCalled 4) (calls_of this a (initial None))) as Hin
    by (left; reflexivity).
  split; [exact Hin|].
  exact (proj2 (proj2 (proj2 (loader_called_only_when_deferring this a (initial None)
                                Ambient 4 Hin)))).
Defined.

Lemma handler_called_only_on_delivery_witness :
  let this := mkPlugin (mkConfig [] [] None) None in
  let w := snd (addEventListener this 1 "tap" 2 (initial (Some obliging_engine))) in
  In (Guarded, HandlerCalled 2 8) (calls_of this (ADeliver 0 8) w)
  /\ exists cb, ADeliver 0 8 = ADeliver cb 8 /\ callbacks w !! cb = Some 2.
Proof.
  intros this w.
  assert (In (Guarded, HandlerCalled 2 8) (calls_of this (ADeliver 0 8) w)) as Hin
    by (left; reflexivity).
  split; [exact Hin|].
  destruct (handler_called_only_on_delivery this (ADeliver 0 8) w Guarded 2 8 Hin)
    as [cb [Ha [Hcb _]]].
  exists cb. split; assumption.
Defined.

Lemma deferred_calls_do_not_interfere_witness :
  let this := mkPlugin (mkConfig [] [] None) (Some 0) in
  let w := run this [AAddEventListener 1 "tap" 2; AAddEventListener 3 "press" 4] (initial None) in
  0 <> 1
  /\ known 0 w
  /\ pending (snd (invoke (FDeref 0) w)) !! 1
     = Some (mkReg false (FCancel 1) 3 "press" 4 Outstanding).
Proof.
  intros this w.
  assert (known 0 w) as Hk.
  { left. eexists. split; [reflexivity|]. split; reflexivity. }
  split; [discriminate|]. split; [exact Hk|].
  exact (eq_trans (proj1 (deferred_calls_do_not_interfere this 0 1 w
                            (fun H : 0 = 1 => O_S 0 H) Hk)) eq_refl).
Defined.

Lemma plugin_never_installs_the_engine_witness :
  let this := mkPlugin (mkConfig [] [] None) (Some 0) in
  let acts := [AAddEventListener 1 "tap" 2; ASettle 0 Fulfilled; AInvoke (FDeref 0)] in
  Forall not_installing acts
  /\ Hammer (run this acts (initial None)) = None
  /\ fst (supports this "tap" (run this acts (initial None))) = Ok true.
Proof.
  intros this acts.
  assert (Forall not_installing acts) as Hall
    by (repeat constructor; intros hm; discriminate).
  destruct (plugin_never_installs_the_engine this acts (initial None) Hall) as [HH Hs].
  split; [exact Hall|]. split; [exact HH|]. rewrite (Hs "tap"). reflexivity.
Defined.

Lemma handler_never_called_unless_added_witness :
  let this := mkPlugin (mkConfig [] [] None) None in
  let acts := [AAddEventListener 1 "tap" 2; ADeliver 0 5; ADeliver 1 6] in
  Forall (not_adding 9) acts
  /\ forall z ev, ~ In (z, HandlerCalled 9 ev)
                       (log (run this acts (initial (Some obliging_engine)))).
Proof.
  intros this acts.
  assert (Forall (not_adding 9) acts) as Hall
    by (repeat constructor; intros el n; discriminate).
  split; [exact Hall|].
  exact (handler_never_called_unless_added this _ 9 acts Hall).
Defined.

Lemma overrides_have_the_last_word_witness :
  let cfg := mkConfig [] [("pinch", [("enable", "false")]); ("swipe", [("velocity", "1")])] None in
  let lib := preset_engine in
  let w := initial (Some lib) in
  let added := drop (length (log w)) (log (snd (buildHammer cfg 1 w))) in
  Hammer w = Some lib
  /\ builds lib cfg 1 = true
  /\ last_setting 0 "pinch" added = Some (Some [("enable", "false")])
  /\ last_setting 0 "rotate" added = Some (Some [("enable", "true")])
  /\ last_setting 0 "tap" added = None.
Proof.
  intros cfg lib w added.
  pose proof (overrides_have_the_last_word cfg 1 w lib eq_refl eq_refl) as [_ H].
  split; [reflexivity|]. split; [reflexivity|].
  split; [exact (H "pinch")|]. split; [exact (H "rotate") | exact (H "tap")].
Defined.

Lemma constructor_failure_after_load_is_caught_witness :
  let this := mkPlugin (mkConfig [] [] None) (Some 0) in
  let lib := refusing_engine in
  let c := mkReg false (FCancel 0) 1 "tap" 2 Outstanding in
  let w := run this [AAddEventListener 1 "Tap" 2; ASetHammer (Some lib)] (initial None) in
  pending w !! 0 = Some c
  /\ reg_promise c = Outstanding
  /\ cancelRegistration c = false
  /\ Hammer w = Some lib
  /\ constructs lib (reg_element c) (options (_config this)) = false
  /\ calls_of this (ASettle 0 Fulfilled) w = [(Ambient, Warn (loader_failed_message "tap"))]
  /\ invoke (FDeref 0) (run this [] (settle this 0 Fulfilled w))
     = (Ok tt, run this [] (settle this 0 Fulfilled w)).
Proof.
  intros this lib c w.
  destruct (constructor_failure_after_load_is_caught this 0 c w lib []
              eq_refl eq_refl eq_refl eq_refl eq_refl) as [_ [Hcalls [_ [_ [_ [_ Hinv]]]]]].
  do 5 (split; [reflexivity|]). split; [exact Hcalls | exact Hinv].
Defined.

Lemma missing_recognizer_after_load_is_caught_witness :
  let this := mkPlugin (mkConfig [] [("panleft", [("threshold", "5")])] None) (Some 0) in
  let lib := preset_engine in
  let c := mkReg false (FCancel 0) 1 "tap" 2 Outstanding in
  let w := run this [AAddEventListener 1 "Tap" 2; ASetHammer (Some lib)] (initial None) in
  let w1 := settle this 0 Fulfilled w in
  pending w !! 0 = Some c
  /\ reg_promise c = Outstanding
  /\ cancelRegistration c = false
  /\ Hammer w = Some lib
  /\ constructs lib (reg_element c) (options (_config this)) = true
  /\ all_present (recognizers lib (reg_element c) (options (_config this)))
       (settings (_config this)) = false
  /\ calls_of this (ASettle 0 Fulfilled) w
     = [(OutsideAngular, HammerNew 0 1 None);
        (OutsideAngular, RecognizerSet 0 "pinch" (Some [("enable", "true")]));
        (OutsideAngular, RecognizerSet 0 "rotate" (Some [("enable", "true")]));
        (Ambient, Warn (loader_failed_message "tap"))]
  /\ managers w1 = 1
  /\ callbacks w1 = []
  /\ invoke (FDeref 0) w1 = (Ok tt, w1).
Proof.
  intros this lib c w w1.
  destruct (missing_recognizer_after_load_is_caught this 0 c w lib []
              eq_refl eq_refl eq_refl eq_refl eq_refl eq_refl)
    as [_ [Hcalls [_ [Hm [Hcb [_ [_ Hinv]]]]]]].
  do 6 (split; [reflexivity|]).
  split; [exact Hcalls|]. split; [exact Hm|]. split; [exact Hcb | exact Hinv].
Defined.

(** ** Scenarios *)

Section Scenarios.

Let lib : HammerLib := obliging_engine.
Let lazy : HammerGesturesPlugin := mkPlugin (mkConfig [] [] None) (Some 0).
Let plain : HammerGesturesPlugin := mkPlugin (mkConfig [] [] None) None.

(** The engine arrives through the loader and the call was not cancelled:
    the listener is bound, and an event on it reaches the handler once. *)
Example loaded_then_bound :
  log (run lazy [AAddEventListener 1 "swipeleft" 2; ASetHammer (Some lib);
                 ASettle 0 Fulfilled; ADeliver 0 77] (initial None))
  = [(Ambient, LoaderCalled 0);
     (OutsideAngular, HammerNew 0 1 None);
     (OutsideAngular, RecognizerSet 0 "pinch" (Some enable_true));
     (OutsideAngular, RecognizerSet 0 "rotate" (Some enable_true));
     (OutsideAngular, On 0 "swipeleft" 0);
     (Guarded, HandlerCalled 2 77)].
Proof. reflexivity. Qed.

(** The caller cancels at once: when the loader is done nothing is bound. *)
Example cancelled_then_loaded :
  let w := run lazy [AAddEventListener 1 "swipeleft" 2; AInvoke (FDeref 0);
                     ASetHammer (Some lib); ASettle 0 Fulfilled; ADeliver 0 77;
                     AInvoke (FDeref 0)] (initial None) in
  log w = [(Ambient, LoaderCalled 0)] /\ callbacks w = [] /\ managers w = 0.
Proof. repeat split; reflexivity. Qed.

(** No engine and no loader. *)
Example pinch_unsupported :
  fst (supports plain "pinch" (initial None)) = Ok false.
Proof. reflexivity. Qed.

(** The loader fails: the function returned still returns, and does
    nothing. *)
Example rejected_then_deregistered :
  let w := run lazy [AAddEventListener 1 "tap" 2; ASettle 0 Rejected] (initial None) in
  invoke (FDeref 0) w = (Ok tt, w)
  /\ log w = [(Ambient, LoaderCalled 0);
              (Ambient, Warn (loader_failed_message "tap"))].
Proof. split; reflexivity. Qed.

(** The loader is done, but the engine's constructor throws: the promise
    chain catches it and the call fails like a rejected load. *)
Example loaded_but_refused :
  let w := run lazy [AAddEventListener 1 "tap" 2;
                     ASetHammer (Some refusing_engine);
                     ASettle 0 Fulfilled] (initial None) in
  log w = [(Ambient, LoaderCalled 0); (Ambient, Warn (loader_failed_message "tap"))]
  /\ failed 0 w.
Proof.
  split; [reflexivity|]. eexists. split; [reflexivity|]. split; reflexivity.
Qed.

(** A build that stops at a missing recognizer leaves an instance without
    a listener: the instances built are then more than the calls of [on]. *)
Example instance_without_listener :
  let this := mkPlugin (mkConfig [] [] (Some [("recognizers", "[]")])) None in
  let w := run this [AAddEventListener 1 "tap" 2] (initial (Some preset_engine)) in
  instances_built (log w) = [0] /\ listeners (log w) = []
  /\ managers w = 1 /\ callbacks w = [].
Proof. repeat split; reflexivity. Qed.

End Scenarios.
